(** * Seat reservation server (server.js): lock, confirm, release, unlock, expiry

    A shallow embedding of the seat part of [src/server.js].  The file holds
    one table [seats] and two families of handlers over it:

    - the [/api/seats/...] handlers, which find a seat by its [id] field,
      change the record in place and stamp a lock with [lockedAt];
    - the [/lock], [/confirm], [/unlock], [/seats] handlers, which index the
      table by position, replace the record by a fresh object, stamp a lock
      with [lockExpiresAt] and arm a [setTimeout] callback.

    The middleware [cleanExpiredLocks] is registered with [app.use] before
    every route, so it runs in front of each handler of either family.

    [/lock] and [armSeatExpiry] read an identifier, [LOCK_TTL], that the
    file declares nowhere. Reading an unbound identifier throws a
    [ReferenceError], which the framework answers with status 500; so the
    handlers are given the binding of [LOCK_TTL] in the global scope as an
    [option], and the program as it stands is the one with no binding.

    Time ([Date.now()]) is an integer number of milliseconds handed to each
    handler; the pending [setTimeout] callbacks are a finite map from timer
    handle to the seat index the callback closes over. *)

From Stdlib Require Import ZArith String Ascii List Bool Lia.
From stdpp Require Import base decidable option list gmap strings pretty.

Local Open Scope string_scope.
Local Open Scope Z_scope.

(** ** JavaScript values held by the records *)

(** A caller identity as it arrives in a JSON body or a query string.
    Objects and arrays, and numbers that are not integers, are left out. *)
Inductive ident : Type :=
  | IBool (b : bool)
  | INum (n : Z)
  | IStr (s : string).

(** A property that may be missing ([undefined]), [null], or hold a value. *)
Inductive field (A : Type) : Type :=
  | Absent
  | Null
  | Val (a : A).
Arguments Absent {A}.
Arguments Null {A}.
Arguments Val {A} a.

#[global] Instance ident_eq_dec : EqDecision ident.
Proof. solve_decision. Defined.

#[global] Instance field_eq_dec {A} `{EqDecision A} : EqDecision (field A).
Proof. solve_decision. Defined.

(** JavaScript truthiness of an identity: [false], [0] and [''] are falsy. *)
Definition ident_truthy (u : ident) : bool :=
  match u with
  | IBool b => b
  | INum n => negb (n =? 0)
  | IStr s => negb (bool_decide (s = ""))
  end.

(** [!userId] is [negb (truthy userId)]: missing and [null] are falsy. *)
Definition truthy (v : field ident) : bool :=
  match v with
  | Absent | Null => false
  | Val u => ident_truthy u
  end.

(** ** The seat record

    Every property the handlers read or write.  [seat_id] is the property
    [id] (renamed: [id] is the identity function here); it is a number or
    missing, as are [lockExpiresAt] and the timer handle [timeoutId]. *)
Record seat : Type := Seat {
  seat_id : option Z;
  status : string;
  lockedBy : field ident;
  lockedAt : field Z;
  bookedBy : field ident;
  lockExpiresAt : option Z;
  timeoutId : option nat
}.

#[global] Instance seat_eq_dec : EqDecision seat.
Proof. solve_decision. Defined.

(** The object literal [{ status: 'available' }]. *)
Definition available_obj : seat :=
  Seat None "available" Absent Absent Absent None None.

(** The object literal [{ status: 'booked' }]. *)
Definition booked_obj : seat :=
  Seat None "booked" Absent Absent Absent None None.

(** The object literal [{ status: 'locked', lockedBy: user, lockExpiresAt }]. *)
Definition locked_obj (user : string) (expires : Z) : seat :=
  Seat None "locked" (Val (IStr user)) Absent Absent (Some expires) None.

(** ** Server state: the table and the pending timeouts *)

(** A pending [setTimeout]: the [seatId] its callback closes over and the
    time before which it cannot fire. *)
Record timer : Type := Timer {
  seatId : Z;
  due : Z
}.

Record state : Type := State {
  seats : list seat;
  timers : gmap nat timer;
  next_timer : nat
}.

(** [Array.from({ length: 50 }, (_, index) => ({ id: index + 1, ... }))] *)
Definition initial_seat (index : nat) : seat :=
  Seat (Some (Z.of_nat index + 1)) "available" Null Null Null None None.

Definition initial_seats : list seat := initial_seat <$> seq 0 50.

Definition initial_state : state := State initial_seats ∅ 0.

(** [seats[id]] for a numeric [id]: an element for an index in range and
    [undefined] otherwise (a [NaN] or fractional [id] names no element
    either and behaves as an integer out of range). *)
Definition seat_at (s : state) (id : Z) : option seat :=
  if bool_decide (0 ≤ id) then seats s !! Z.to_nat id else None.

(** [seats[id] = v], used by the handlers only after [seats[id]] was read. *)
Definition set_seat (id : Z) (v : seat) (s : state) : state :=
  State (<[Z.to_nat id := v]> (seats s)) (timers s) (next_timer s).

(** ** Responses *)

(** A piece of a template literal. *)
Inductive frag : Type :=
  | Lit (text : string)
  | NumF (n : Z).

Inductive body : Type :=
  | Message (message : list frag)
  | ApiResult (success : bool) (message : list frag) (data : option seat)
  | ApiSeats (data : list seat)
  | ApiCount (count : nat) (data : list seat)
  | View (view : list (nat * string))
  | ErrorPage.

Record response : Type := Response {
  code : Z;
  json : body
}.

(** An exception leaves a route handler: the framework's error handler
    answers with status 500 and a page of its own. *)
Definition thrown : response := Response 500 ErrorPage.

(** How a call ends: it returns, or an exception leaves it. *)
Inductive ending : Type :=
  | Returns
  | Throws.

(** The seat record a response carries in its [data] property, if any. *)
Definition returned_record (r : response) : option seat :=
  match json r with
  | ApiResult _ _ d => d
  | _ => None
  end.

(** ** In-place assignments to a record's properties *)

Definition set_status (v : string) (x : seat) : seat :=
  Seat (seat_id x) v (lockedBy x) (lockedAt x) (bookedBy x)
       (lockExpiresAt x) (timeoutId x).

Definition set_lockedBy (v : field ident) (x : seat) : seat :=
  Seat (seat_id x) (status x) v (lockedAt x) (bookedBy x)
       (lockExpiresAt x) (timeoutId x).

Definition set_lockedAt (v : field Z) (x : seat) : seat :=
  Seat (seat_id x) (status x) (lockedBy x) v (bookedBy x)
       (lockExpiresAt x) (timeoutId x).

Definition set_bookedBy (v : field ident) (x : seat) : seat :=
  Seat (seat_id x) (status x) (lockedBy x) (lockedAt x) v
       (lockExpiresAt x) (timeoutId x).

Definition set_timeoutId (v : option nat) (x : seat) : seat :=
  Seat (seat_id x) (status x) (lockedBy x) (lockedAt x) (bookedBy x)
       (lockExpiresAt x) v.

(** [const LOCK_EXPIRATION_TIME = 60 * 1000] *)
Definition LOCK_EXPIRATION_TIME : Z := 60 * 1000.

(** ** The middleware [cleanExpiredLocks] *)

(** [currentTime - seat.lockedAt > LOCK_EXPIRATION_TIME]: a missing
    [lockedAt] makes the difference [NaN] and the test false; [null]
    counts as [0]. *)
Definition lock_is_stale (currentTime : Z) (x : seat) : bool :=
  match lockedAt x with
  | Val t => LOCK_EXPIRATION_TIME <? currentTime - t
  | Null => LOCK_EXPIRATION_TIME <? currentTime - 0
  | Absent => false
  end.

(** The body of the [forEach] callback. *)
Definition clean_seat (currentTime : Z) (x : seat) : seat :=
  if bool_decide (status x = "locked") && lock_is_stale currentTime x
  then set_lockedAt Null (set_lockedBy Null (set_status "available" x))
  else x.

Definition cleanExpiredLocks (currentTime : Z) (s : state) : state :=
  State (clean_seat currentTime <$> seats s) (timers s) (next_timer s).

(** ** The [/api/seats] handlers *)

(** [seats.find(s => s.id === seatId)], with the position of the record
    found so that the assignments made through the reference reach the
    table. *)
Definition find_seat (seatId : Z) (s : state) : option (nat * seat) :=
  list_find (λ x, seat_id x = Some seatId) (seats s).

Definition api_fail (c : Z) (m : string) : response :=
  Response c (ApiResult false [Lit m] None).

Definition api_ok (m : string) (x : seat) : response :=
  Response 200 (ApiResult true [Lit m] (Some x)).

Definition put_seat (i : nat) (x : seat) (s : state) : state :=
  State (<[i := x]> (seats s)) (timers s) (next_timer s).

(** The record holds the [Timeout] object of a timeout that is still
    pending. Such an object links to the timer list that links back to it,
    and [JSON.stringify] throws on a circular structure. *)
Definition holds_timeout (s : state) (x : seat) : bool :=
  match timeoutId x with
  | Some h => bool_decide (is_Some (timers s !! h))
  | None => false
  end.

(** [GET /api/seats]: [res.json] serialises the whole table. *)
Definition api_seats (s : state) : state * response :=
  if existsb (holds_timeout s) (seats s) then (s, thrown)
  else (s, Response 200 (ApiSeats (seats s))).

(** [POST /api/seats/:id/lock] *)
Definition api_lock (seatId : Z) (userId : field ident) (now : Z)
    (s : state) : state * response :=
  if negb (truthy userId) then (s, api_fail 400 "User ID is required")
  else
    match find_seat seatId s with
    | None => (s, api_fail 404 "Seat not found")
    | Some (i, x) =>
        if negb (bool_decide (status x = "available"))
        then (s, Response 400 (ApiResult false
                   [Lit "Seat is "; Lit (status x);
                    Lit ". Cannot lock at this time."] None))
        else
          let x' := set_lockedAt (Val now)
                      (set_lockedBy userId (set_status "locked" x)) in
          (put_seat i x' s, api_ok "Seat locked successfully" x')
    end.

(** [POST /api/seats/:id/confirm] *)
Definition api_confirm (seatId : Z) (userId : field ident) (now : Z)
    (s : state) : state * response :=
  if negb (truthy userId) then (s, api_fail 400 "User ID is required")
  else
    match find_seat seatId s with
    | None => (s, api_fail 404 "Seat not found")
    | Some (i, x) =>
        if negb (bool_decide (status x = "locked"))
        then (s, api_fail 400 "Seat must be locked before confirming")
        else if negb (bool_decide (lockedBy x = userId))
        then (s, api_fail 403 "Seat is locked by another user")
        else if lock_is_stale now x
        then
          let x' := set_lockedAt Null
                      (set_lockedBy Null (set_status "available" x)) in
          (put_seat i x' s,
           api_fail 400 "Lock has expired. Please lock the seat again")
        else
          let x' := set_lockedAt Null
                      (set_lockedBy Null
                         (set_bookedBy userId (set_status "booked" x))) in
          (put_seat i x' s, api_ok "Booking confirmed successfully" x')
    end.

(** [POST /api/seats/:id/release] *)
Definition api_release (seatId : Z) (userId : field ident)
    (s : state) : state * response :=
  if negb (truthy userId) then (s, api_fail 400 "User ID is required")
  else
    match find_seat seatId s with
    | None => (s, api_fail 404 "Seat not found")
    | Some (i, x) =>
        if negb (bool_decide (status x = "locked"))
        then (s, api_fail 400 "Seat is not locked")
        else if negb (bool_decide (lockedBy x = userId))
        then (s, api_fail 403 "Seat is locked by another user")
        else
          let x' := set_lockedAt Null
                      (set_lockedBy Null (set_status "available" x)) in
          (put_seat i x' s, api_ok "Seat released successfully" x')
    end.

(** [GET /api/seats/available] *)
Definition api_available (s : state) : state * response :=
  let availableSeats :=
    filter (λ x, status x = "available") (seats s) in
  (s, Response 200 (ApiCount (length availableSeats) availableSeats)).

(** ** The timer-based handlers *)

(** [String(req.query.user || 'anonymous')], for a query parameter that is
    missing or a string. *)
Definition query_user (user : option string) : string :=
  match user with
  | Some u => if bool_decide (u = "") then "anonymous" else u
  | None => "anonymous"
  end.

(** [seat.lockExpiresAt && seat.lockExpiresAt <= now]: a missing
    [lockExpiresAt] and the number [0] are falsy. *)
Definition lock_expired (now : Z) (x : seat) : bool :=
  match lockExpiresAt x with
  | Some e => negb (e =? 0) && (e <=? now)
  | None => false
  end.

(** [clearSeatTimer(seat)], for the reference [seat = seats[id]] that every
    caller passes: [clearTimeout] drops the pending callback and the handle
    is erased from the record. *)
Definition clearSeatTimer (id : Z) (s : state) : state :=
  match seat_at s id with
  | Some x =>
      match timeoutId x with
      | Some h =>
          State (<[Z.to_nat id := set_timeoutId None x]> (seats s))
                (delete h (timers s)) (next_timer s)
      | None => s
      end
  | None => s
  end.

(** [setTimeout(callback, delay)] at time [now]: a fresh handle, whose
    callback (closing over [seatId]) cannot run before [now + delay]. *)
Definition setTimeout (seatId delay now : Z) (s : state) : nat * state :=
  (next_timer s,
   State (seats s)
         (<[next_timer s := Timer seatId (now + delay)]> (timers s))
         (S (next_timer s))).

(** The callback handed to [setTimeout] in [armSeatExpiry]. *)
Definition expiry_callback (seatId now : Z) (s : state) : state :=
  match seat_at s seatId with
  | Some x =>
      if bool_decide (status x = "locked") && lock_expired now x
      then set_seat seatId available_obj s
      else s
  | None => s
  end.

(** A pending timeout fires: it leaves the pending set and its callback
    runs, at a time [now] not before it is due. *)
Definition fire (h : nat) (now : Z) (s : state) : state :=
  match timers s !! h with
  | Some t =>
      if due t <=? now
      then expiry_callback (seatId t) now
             (State (seats s) (delete h (timers s)) (next_timer s))
      else s
  | None => s
  end.

(** [GET /seats] *)
Definition get_seats (s : state) : state * response :=
  (s, Response 200 (View (imap (λ i x, (i, status x)) (seats s)))).

Definition not_exist (id : Z) : response :=
  Response 404 (Message [Lit "Seat "; NumF id; Lit " does not exist."]).

Section Timed.

(** What the global scope binds [LOCK_TTL] to: [Some ttl] for a number,
    [None] when nothing declares it, as in [server.js]; reading it then
    throws a [ReferenceError]. *)
Variable LOCK_TTL : option Z.

(** [armSeatExpiry(seatId)], called at time [now]. The arguments of
    [setTimeout] are evaluated before the call: with [LOCK_TTL] unbound
    the exception comes after [clearSeatTimer] and before any timeout is
    scheduled. Its only caller has checked that [seats[seatId]] exists. *)
Definition armSeatExpiry (seatId now : Z) (s : state) : state * ending :=
  let s1 := clearSeatTimer seatId s in
  match LOCK_TTL with
  | None => (s1, Throws)
  | Some ttl =>
      match seat_at s1 seatId with
      | Some x =>
          let '(h, s2) := setTimeout seatId (ttl + 50) now s1 in
          (set_seat seatId (set_timeoutId (Some h) x) s2, Returns)
      | None => (s1, Throws)
      end
  end.

(** [POST /lock/:id?user=U]. The line that acquires the lock starts with
    [const lockExpiresAt = now + LOCK_TTL]: with [LOCK_TTL] unbound the
    handler throws there, after the release of an expired lock and before
    anything is stored for the caller. *)
Definition lock (id : Z) (user : option string) (now : Z)
    (s : state) : state * response :=
  let user := query_user user in
  match seat_at s id with
  | None => (s, not_exist id)
  | Some x =>
      let s1 :=
        if bool_decide (status x = "locked") && lock_expired now x
        then set_seat id available_obj (clearSeatTimer id s)
        else s in
      match seat_at s1 id with
      | None => (s1, thrown)
      | Some cur =>
          if bool_decide (status cur = "booked")
          then (s1, Response 409
                      (Message [Lit "Seat "; NumF id;
                                Lit " is already booked."]))
          else if bool_decide (status cur = "locked")
          then (s1, Response 423
                      (Message [Lit "Seat "; NumF id;
                                Lit " is already locked. Try another seat."]))
          else
            match LOCK_TTL with
            | None => (s1, thrown)
            | Some ttl =>
                let lockExpiresAt := now + ttl in
                let s2 := set_seat id (locked_obj user lockExpiresAt) s1 in
                match armSeatExpiry id now s2 with
                | (s3, Returns) =>
                    (s3, Response 200
                           (Message
                              [Lit "Seat "; NumF id;
                               Lit " locked successfully. Confirm within 1 minute."]))
                | (s3, Throws) => (s3, thrown)
                end
            end
      end
  end.

(** [POST /confirm/:id?user=U] *)
Definition confirm (id : Z) (user : option string) (now : Z)
    (s : state) : state * response :=
  let user := query_user user in
  match seat_at s id with
  | None => (s, not_exist id)
  | Some x =>
      if negb (bool_decide (status x = "locked"))
      then (s, Response 400
                 (Message [Lit "Seat is not locked and cannot be booked"]))
      else if lock_expired now x
      then (set_seat id available_obj (clearSeatTimer id s),
            Response 408
              (Message [Lit "Lock expired. Please lock the seat again."]))
      else if negb (bool_decide (lockedBy x = Val (IStr user)))
      then (s, Response 403 (Message [Lit "Seat locked by another user."]))
      else (set_seat id booked_obj (clearSeatTimer id s),
            Response 200
              (Message [Lit "Seat "; NumF id; Lit " booked successfully!"]))
  end.

(** [POST /unlock/:id] *)
Definition unlock (id : Z) (s : state) : state * response :=
  match seat_at s id with
  | None => (s, not_exist id)
  | Some x =>
      if bool_decide (status x = "available")
      then (s, Response 200
                 (Message [Lit "Seat "; NumF id; Lit " already available."]))
      else if bool_decide (status x = "booked")
      then (s, Response 409
                 (Message [Lit "Seat "; NumF id;
                           Lit " is booked; cannot unlock."]))
      else (set_seat id available_obj (clearSeatTimer id s),
            Response 200
              (Message [Lit "Seat "; NumF id; Lit " lock cleared."]))
  end.

(** ** Requests, timeouts and runs *)

Inductive request : Type :=
  | ApiSeatsReq
  | ApiLock (seatId : Z) (userId : field ident)
  | ApiConfirm (seatId : Z) (userId : field ident)
  | ApiRelease (seatId : Z) (userId : field ident)
  | ApiAvailableReq
  | SeatsReq
  | Lock (id : Z) (user : option string)
  | Confirm (id : Z) (user : option string)
  | Unlock (id : Z).

Inductive event : Type :=
  | Req (r : request)
  | Fire (h : nat).

(** The route handler of a request. *)
Definition handler (r : request) (now : Z) (s : state) : state * response :=
  match r with
  | ApiSeatsReq => api_seats s
  | ApiLock seatId userId => api_lock seatId userId now s
  | ApiConfirm seatId userId => api_confirm seatId userId now s
  | ApiRelease seatId userId => api_release seatId userId s
  | ApiAvailableReq => api_available s
  | SeatsReq => get_seats s
  | Lock id user => lock id user now s
  | Confirm id user => confirm id user now s
  | Unlock id => unlock id s
  end.

(** A request goes through [cleanExpiredLocks] and then its route. *)
Definition serve (r : request) (now : Z) (s : state) : state * response :=
  handler r now (cleanExpiredLocks now s).

(** One turn of the event loop at time [now]: a request is served, or a
    timeout runs its callback and answers nobody. *)
Definition step (now : Z) (e : event) (s : state) : state * option response :=
  match e with
  | Req r => let '(s', a) := serve r now s in (s', Some a)
  | Fire h => (fire h now s, None)
  end.

Fixpoint run (trace : list (Z * event)) (s : state) : state :=
  match trace with
  | [] => s
  | (now, e) :: rest => run rest (fst (step now e s))
  end.

Definition reachable (s : state) : Prop :=
  ∃ trace, s = run trace initial_state.

End Timed.

Arguments armSeatExpiry : simpl never.

(** ** Shapes of the records a run can leave in the table *)

(** A record still carrying its [id]: only the [/api/seats] handlers and
    the middleware have written to it. *)
Definition api_shaped (i : nat) (x : seat) : Prop :=
  seat_id x = Some (Z.of_nat i + 1) ∧ lockExpiresAt x = None
  ∧ timeoutId x = None
  ∧ ((status x = "available" ∧ lockedBy x = Null ∧ lockedAt x = Null
      ∧ bookedBy x = Null)
     ∨ (status x = "locked" ∧ (∃ u, lockedBy x = Val u)
        ∧ (∃ t, lockedAt x = Val t) ∧ bookedBy x = Null)
     ∨ (status x = "booked" ∧ lockedBy x = Null ∧ lockedAt x = Null
        ∧ ∃ u, bookedBy x = Val u)).

(** The record [/lock] leaves behind once [armSeatExpiry] has stored the
    handle of its timeout. *)
Definition timed_lock (n : nat) (x : seat) : Prop :=
  ∃ u e h, x = set_timeoutId (Some h) (locked_obj u e) ∧ (h < n)%nat.

Definition seat_ok (n : nat) (i : nat) (x : seat) : Prop :=
  api_shaped i x ∨ x = available_obj ∨ x = booked_obj ∨ timed_lock n x.

(** The invariant of the server state: fifty records of a known shape, and
    every pending timeout is the one whose handle its seat stores. *)
Record inv (s : state) : Prop := Inv {
  inv_length : length (seats s) = 50%nat;
  inv_seats : ∀ i x, seats s !! i = Some x → seat_ok (next_timer s) i x;
  inv_timers : ∀ h t, timers s !! h = Some t →
      (h < next_timer s)%nat
      ∧ ∃ x, seat_at s (seatId t) = Some x ∧ timeoutId x = Some h
}.

(** No timeout is pending for the seat at index [id]. *)
Definition no_pending (id : Z) (s : state) : Prop :=
  ∀ h t, timers s !! h = Some t → seatId t ≠ id.

(** ** What the specification's record reads off a seat *)

(** The holder is the locker or, once booked, the booker. *)
Definition holder_set (x : seat) : bool :=
  match lockedBy x, bookedBy x with
  | Val _, _ | _, Val _ => true
  | _, _ => false
  end.

(** A lock carries its deadline as [lockExpiresAt], or as the [lockedAt]
    stamp the deadline is counted from. *)
Definition expiry_set (x : seat) : bool :=
  match lockExpiresAt x, lockedAt x with
  | Some _, _ | _, Val _ => true
  | _, _ => false
  end.

(** The three invariants of the reservation record, for one seat. *)
Definition record_ok (x : seat) : Prop :=
  (status x = "available" ∨ status x = "locked" ∨ status x = "booked")
  ∧ (holder_set x = true ↔ status x ≠ "available")
  ∧ (expiry_set x = true ↔ status x = "locked").

(** The same with the holder clause dropped for booked seats. *)
Definition record_ok_but_booking_owner (x : seat) : Prop :=
  (status x = "available" ∨ status x = "locked" ∨ status x = "booked")
  ∧ (status x = "available" → holder_set x = false)
  ∧ (status x = "locked" → holder_set x = true)
  ∧ (expiry_set x = true ↔ status x = "locked").

(** ** Outcomes named by the statements below *)

(** The record at [id] is available, with no holder and no expiry left. *)
Definition freed (id : Z) (s' : state) : Prop :=
  ∃ y, seat_at s' id = Some y ∧ status y = "available"
       ∧ holder_set y = false ∧ expiry_set y = false.

(** No record carries a [lockExpiresAt] or a timeout handle, and no
    timeout is pending or was ever scheduled. *)
Definition untimed (s : state) : Prop :=
  timers s = ∅ ∧ next_timer s = 0%nat
  ∧ ∀ i x, seats s !! i = Some x →
      lockExpiresAt x = None ∧ timeoutId x = None.

(** The deadline of a lock stamped with [lockedAt] has passed at [now]. *)
Definition past_deadline (now : Z) (x : seat) : Prop :=
  ∃ t, lockedAt x = Val t ∧ t + LOCK_EXPIRATION_TIME < now.

(** ** Runs of the program as it stands

    Nothing binds [LOCK_TTL]. The only lock such a run can store is the
    one of [POST /api/seats/:id/lock]. *)

Definition undeclared : option Z := None.

(** Seat 3 (index 2) right after [POST /api/seats/3/lock] by alice. *)
Definition alice_api_locked : state :=
  run undeclared [(1000, Req (ApiLock 3 (Val (IStr "alice"))))] initial_state.

Definition alice_api_lock : seat :=
  Seat (Some 3) "locked" (Val (IStr "alice")) (Val 1000) Null None None.

(** Seat 1 (index 0) right after [POST /api/seats/1/lock] by alice at time
    1000: her lock runs until 61000. *)
Definition alice_seat1 : state :=
  run undeclared [(1000, Req (ApiLock 1 (Val (IStr "alice"))))] initial_state.

Definition alice_seat1_lock : seat :=
  Seat (Some 1) "locked" (Val (IStr "alice")) (Val 1000) Null None None.

(** Then [POST /confirm/0?user=alice] at time 2000. *)
Definition alice_booked : state :=
  run undeclared [(1000, Req (ApiLock 1 (Val (IStr "alice"))));
                  (2000, Req (Confirm 0 (Some "alice")))] initial_state.

(** Or [POST /unlock/0] at time 2000. *)
Definition alice_unlocked : state :=
  run undeclared [(1000, Req (ApiLock 1 (Val (IStr "alice"))));
                  (2000, Req (Unlock 0))] initial_state.

(** Seat 1 locked for the identity 'anonymous'. *)
Definition anonymous_seat1 : state :=
  run undeclared [(1000, Req (ApiLock 1 (Val (IStr "anonymous"))))]
    initial_state.

(** ** A run with [LOCK_TTL] bound

    The messages of [/lock] promise one minute: the state below is what
    [POST /lock/0?user=alice] at time 1000 leaves when the global scope
    binds [LOCK_TTL] to 60000. It stands for the states with a
    [lockExpiresAt] lock and a pending timeout that the handlers and the
    expiry callback are written for. *)

Definition minute : Z := 60000.

Definition alice_locked : state :=
  run (Some minute) [(1000, Req (Lock 0 (Some "alice")))] initial_state.

Definition alice_lock : seat :=
  set_timeoutId (Some 0%nat) (locked_obj "alice" 61000).

(** * The playing-card collection

    The first server of [src/server.js]: an in-memory list [cards] and the
    counter [nextId], behind the routes of [/api/cards]. A request body
    property ([suit], [value]) is any JSON value; a card id is what
    [parseInt] made of the path parameter, an integer or [NaN] ([None]). *)

Record card : Type := Card {
  card_id : Z;
  suit : string;
  value : string
}.

#[global] Instance card_eq_dec : EqDecision card.
Proof. solve_decision. Defined.

Record deck : Type := Deck {
  cards : list card;
  nextId : Z
}.

Definition initial_deck : deck :=
  Deck [Card 1 "Hearts" "A"; Card 2 "Diamonds" "K"; Card 3 "Clubs" "Q";
        Card 4 "Spades" "J"; Card 5 "Hearts" "10"] 6.

Definition validSuits : list string :=
  ["Hearts"; "Diamonds"; "Clubs"; "Spades"].

Definition validValues : list string :=
  ["A"; "2"; "3"; "4"; "5"; "6"; "7"; "8"; "9"; "10"; "J"; "Q"; "K"].

(** [list.includes(v)] for a list of strings and a JSON value: only a
    string can be found. *)
Definition includes (l : list string) (v : field ident) : bool :=
  match v with
  | Val (IStr s) => bool_decide (s ∈ l)
  | _ => false
  end.

(** The string a body property holds; the handlers read it only after
    [validateCard] has accepted the property, which makes it a string. *)
Definition text_of (v : field ident) : string :=
  match v with
  | Val (IStr s) => s
  | _ => ""
  end.

(** The result object of [validateCard]. *)
Record validation : Type := Validation {
  isValid : bool;
  v_message : option string
}.

Definition validateCard (suit value : field ident) : validation :=
  if negb (includes validSuits suit)
  then Validation false
         (Some "Invalid suit. Must be Hearts, Diamonds, Clubs, or Spades")
  else if negb (includes validValues value)
  then Validation false (Some "Invalid value. Must be A, 2-10, J, Q, or K")
  else Validation true None.

(** The JSON answers of the card routes: status code, [success],
    [message], [count], the echoed [suit] or [value], and [data]. *)
Inductive card_data : Type :=
  | NoCard
  | OneCard (c : card)
  | Cards (l : list card).

Record card_reply : Type := CardReply {
  r_code : Z;
  r_success : bool;
  r_message : option string;
  r_count : option nat;
  r_suit : option string;
  r_value : option string;
  r_data : card_data
}.

Definition card_fail (c : Z) (m : string) : card_reply :=
  CardReply c false (Some m) None None None NoCard.

Definition card_ok (c : Z) (m : string) (x : card) : card_reply :=
  CardReply c true (Some m) None None None (OneCard x).

(** [GET /api/cards] *)
Definition cards_all (d : deck) : deck * card_reply :=
  (d, CardReply 200 true None (Some (length (cards d))) None None
        (Cards (cards d))).

(** [GET /api/cards/:id] *)
Definition card_get (cardId : option Z) (d : deck) : deck * card_reply :=
  match cardId with
  | None => (d, card_fail 400 "Invalid card ID. Must be a number.")
  | Some cardId =>
      match list_find (λ c, card_id c = cardId) (cards d) with
      | None => (d, card_fail 404 "Card not found")
      | Some (_, x) =>
          (d, CardReply 200 true None None None None (OneCard x))
      end
  end.

(** [POST /api/cards] *)
Definition card_post (suitv valuev : field ident) (d : deck)
    : deck * card_reply :=
  if negb (truthy suitv) || negb (truthy valuev)
  then (d, card_fail 400 "Both suit and value are required")
  else
    let validation := validateCard suitv valuev in
    if negb (isValid validation)
    then (d, CardReply 400 false (v_message validation) None None None
               NoCard)
    else
      match list_find (λ c, Val (IStr (suit c)) = suitv
                            ∧ Val (IStr (value c)) = valuev) (cards d) with
      | Some _ =>
          (d, card_fail 409 "Card with this suit and value already exists")
      | None =>
          let newCard := Card (nextId d) (text_of suitv) (text_of valuev) in
          (Deck (cards d ++ [newCard]) (nextId d + 1),
           card_ok 201 "Card created successfully" newCard)
      end.

(** [PUT /api/cards/:id] *)
Definition card_put (cardId : option Z) (suitv valuev : field ident)
    (d : deck) : deck * card_reply :=
  match cardId with
  | None => (d, card_fail 400 "Invalid card ID. Must be a number.")
  | Some cardId =>
      match list_find (λ c, card_id c = cardId) (cards d) with
      | None => (d, card_fail 404 "Card not found")
      | Some (cardIndex, x) =>
          if negb (truthy suitv) || negb (truthy valuev)
          then (d, card_fail 400 "Both suit and value are required")
          else
            let validation := validateCard suitv valuev in
            if negb (isValid validation)
            then (d, CardReply 400 false (v_message validation) None None
                       None NoCard)
            else
              match list_find (λ c, Val (IStr (suit c)) = suitv
                                    ∧ Val (IStr (value c)) = valuev
                                    ∧ card_id c ≠ cardId) (cards d) with
              | Some _ =>
                  (d, card_fail 409
                        "Another card with this suit and value already exists")
              | None =>
                  let x' := Card (card_id x) (text_of suitv)
                              (text_of valuev) in
                  (Deck (<[cardIndex := x']> (cards d)) (nextId d),
                   card_ok 200 "Card updated successfully" x')
              end
      end
  end.

(** [DELETE /api/cards/:id] *)
Definition card_delete (cardId : option Z) (d : deck) : deck * card_reply :=
  match cardId with
  | None => (d, card_fail 400 "Invalid card ID. Must be a number.")
  | Some cardId =>
      match list_find (λ c, card_id c = cardId) (cards d) with
      | None => (d, card_fail 404 "Card not found")
      | Some (cardIndex, deletedCard) =>
          (Deck (delete cardIndex (cards d)) (nextId d),
           card_ok 200 "Card deleted successfully" deletedCard)
      end
  end.

(** [GET /api/cards/suit/:suit] *)
Definition cards_by_suit (s : string) (d : deck) : deck * card_reply :=
  if negb (bool_decide (s ∈ validSuits))
  then (d, card_fail 400
             "Invalid suit. Must be Hearts, Diamonds, Clubs, or Spades")
  else
    let suitCards := filter (λ c, suit c = s) (cards d) in
    (d, CardReply 200 true None (Some (length suitCards)) (Some s) None
          (Cards suitCards)).

(** [GET /api/cards/value/:value] *)
Definition cards_by_value (v : string) (d : deck) : deck * card_reply :=
  if negb (bool_decide (v ∈ validValues))
  then (d, card_fail 400 "Invalid value. Must be A, 2-10, J, Q, or K")
  else
    let valueCards := filter (λ c, value c = v) (cards d) in
    (d, CardReply 200 true None (Some (length valueCards)) None (Some v)
          (Cards valueCards)).

Inductive card_request : Type :=
  | CardsAll
  | CardGet (cardId : option Z)
  | CardPost (suitv valuev : field ident)
  | CardPut (cardId : option Z) (suitv valuev : field ident)
  | CardDelete (cardId : option Z)
  | CardsBySuit (s : string)
  | CardsByValue (v : string).

Definition card_serve (r : card_request) (d : deck) : deck * card_reply :=
  match r with
  | CardsAll => cards_all d
  | CardGet cardId => card_get cardId d
  | CardPost suitv valuev => card_post suitv valuev d
  | CardPut cardId suitv valuev => card_put cardId suitv valuev d
  | CardDelete cardId => card_delete cardId d
  | CardsBySuit s => cards_by_suit s d
  | CardsByValue v => cards_by_value v d
  end.

Fixpoint card_run (trace : list card_request) (d : deck) : deck :=
  match trace with
  | [] => d
  | r :: rest => card_run rest (fst (card_serve r d))
  end.

Definition deck_reachable (d : deck) : Prop :=
  ∃ trace, d = card_run trace initial_deck.

(** What the routes keep true of the deck: ids are distinct and below
    [nextId], no two cards share suit and value, and every card has one of
    the four suits and one of the thirteen values. *)
Record deck_ok (d : deck) : Prop := DeckOk {
  ids_distinct : NoDup (card_id <$> cards d);
  ids_issued : Forall (λ c, card_id c < nextId d) (cards d);
  faces_distinct : NoDup ((λ c, (suit c, value c)) <$> cards d);
  faces_valid :
    Forall (λ c, suit c ∈ validSuits ∧ value c ∈ validValues) (cards d)
}.

(** The deck after the queen of hearts has been added to the initial one
    and card 2 has been deleted. *)
Definition deck_after_post_delete : deck :=
  card_run [CardPost (Val (IStr "Hearts")) (Val (IStr "Q"));
            CardDelete (Some 2)] initial_deck.

(** * The employee roster (employee-management.js)

    A menu on the terminal: [rl.question] prints a query and hands the next
    input line to a callback. The state is the array [employees], the
    callback that waits for the next line, and what was printed so far.
    [String.prototype.trim] is taken as a function [trim] on strings. *)

Record employee : Type := Employee {
  name : string;
  emp_id : string
}.

#[global] Instance employee_eq_dec : EqDecision employee.
Proof. solve_decision. Defined.

(** What reaches the terminal: a [console.log] line, given by the pieces
    of its template, or the query of an [rl.question]. *)
Inductive out : Type :=
  | Log (line : list string)
  | Ask (query : string).

(** The callback that the next input line goes to. *)
Inductive prompt : Type :=
  | Choice
  | AddName
  | AddId (name : string)
  | RemoveId
  | SearchId
  | Closed.

Record cli : Type := Cli {
  employees : list employee;
  waiting : prompt;
  printed : list out
}.

Definition LF : string := String "010"%char "".
Definition TAB : string := String "009"%char "".

(** [showMenu()] *)
Definition showMenu : list out :=
  [Log [LF; "=== Employee Management System ==="];
   Log ["1. Add Employee"];
   Log ["2. List All Employees"];
   Log ["3. Remove Employee by ID"];
   Log ["4. Search Employee by ID"];
   Log ["5. Exit"];
   Log ["===================================="]].

(** [showMenuAndGetChoice()], after [logs] were printed. *)
Definition showMenuAndGetChoice (emps : list employee) (before : list out)
    (logs : list out) : cli :=
  Cli emps Choice
      (before ++ logs ++ showMenu ++ [Ask "Enter your choice (1-5): "]).

(** The program's start: the welcome line and the first menu. *)
Definition cli_start : cli :=
  showMenuAndGetChoice [] []
    [Log ["Welcome to Employee Management System!"]].

Section Roster.

Variable trim : string → string.

(** [employees.find(emp => emp.id === id)] *)
Definition find_employee (id : string) (emps : list employee)
    : option employee :=
  snd <$> list_find (λ emp, emp_id emp = id) emps.

(** The callback of the menu's question. *)
Definition on_choice (choice : string) (st : cli) : cli :=
  let emps := employees st in
  let before := printed st in
  if bool_decide (choice = "1")
  then (* addEmployee() *)
    Cli emps AddName (before ++ [Ask "Enter employee name: "])
  else if bool_decide (choice = "2")
  then (* listEmployees() *)
    showMenuAndGetChoice emps before
      (Log [LF; "=== Employee List ==="] ::
       if bool_decide (length emps = 0%nat)
       then [Log ["No employees found."]]
       else [Log ["ID"; TAB; "| Name"]; Log ["--------|----------------"]]
            ++ ((λ emp, Log [emp_id emp; TAB; "| "; name emp]) <$> emps)
            ++ [Log [LF; "Total employees: "; pretty (length emps)]])
  else if bool_decide (choice = "3")
  then (* removeEmployee() *)
    if bool_decide (length emps = 0%nat)
    then showMenuAndGetChoice emps before [Log ["No employees to remove."]]
    else Cli emps RemoveId (before ++ [Ask "Enter employee ID to remove: "])
  else if bool_decide (choice = "4")
  then (* searchEmployee() *)
    if bool_decide (length emps = 0%nat)
    then showMenuAndGetChoice emps before [Log ["No employees to search."]]
    else Cli emps SearchId (before ++ [Ask "Enter employee ID to search: "])
  else if bool_decide (choice = "5")
  then (* rl.close(), whose 'close' handler says goodbye and exits *)
    Cli emps Closed
        (before ++ [Log ["Thank you for using Employee Management System!"];
                    Log ["Goodbye!"]])
  else
    showMenuAndGetChoice emps before
      [Log ["Invalid choice! Please enter a number between 1-5."]].

(** The callback of 'Enter employee name: ' in [addEmployee]. *)
Definition on_name (nm : string) (st : cli) : cli :=
  if bool_decide (trim nm = "")
  then showMenuAndGetChoice (employees st) (printed st)
         [Log ["Error: Employee name cannot be empty!"]]
  else Cli (employees st) (AddId nm)
           (printed st ++ [Ask "Enter employee ID: "]).

(** The callback of 'Enter employee ID: ' in [addEmployee], which closes
    over the [name] typed before. *)
Definition on_id (nm id : string) (st : cli) : cli :=
  if bool_decide (trim id = "")
  then showMenuAndGetChoice (employees st) (printed st)
         [Log ["Error: Employee ID cannot be empty!"]]
  else
    match find_employee id (employees st) with
    | Some existingEmployee =>
        showMenuAndGetChoice (employees st) (printed st)
          [Log ["Error: Employee with ID "; id; " already exists!"]]
    | None =>
        let newEmployee := Employee (trim nm) (trim id) in
        showMenuAndGetChoice (employees st ++ [newEmployee]) (printed st)
          [Log ["✓ Employee "; nm; " (ID: "; id; ") added successfully!"]]
    end.

(** The callback of 'Enter employee ID to remove: '. *)
Definition on_remove (id : string) (st : cli) : cli :=
  if bool_decide (trim id = "")
  then showMenuAndGetChoice (employees st) (printed st)
         [Log ["Error: Employee ID cannot be empty!"]]
  else
    let initialLength := length (employees st) in
    let emps := filter (λ emp, emp_id emp ≠ trim id) (employees st) in
    showMenuAndGetChoice emps (printed st)
      [if bool_decide (length emps < initialLength)%nat
       then Log ["✓ Employee with ID "; id; " removed successfully!"]
       else Log ["Error: No employee found with ID "; id]].

(** The callback of 'Enter employee ID to search: '. *)
Definition on_search (id : string) (st : cli) : cli :=
  if bool_decide (trim id = "")
  then showMenuAndGetChoice (employees st) (printed st)
         [Log ["Error: Employee ID cannot be empty!"]]
  else
    showMenuAndGetChoice (employees st) (printed st)
      match find_employee (trim id) (employees st) with
      | Some emp =>
          [Log [LF; "=== Employee Found ==="];
           Log ["Name: "; name emp]; Log ["ID: "; emp_id emp]]
      | None => [Log ["Error: No employee found with ID "; id]]
      end.

(** One input line goes to the waiting callback; none is read once the
    program has exited. *)
Definition feed (line : string) (st : cli) : cli :=
  match waiting st with
  | Choice => on_choice line st
  | AddName => on_name line st
  | AddId nm => on_id nm line st
  | RemoveId => on_remove line st
  | SearchId => on_search line st
  | Closed => st
  end.

Definition feed_all (lines : list string) (st : cli) : cli :=
  foldl (λ st line, feed line st) st lines.

End Roster.

(** A [trim] for the witnesses: it strips space characters at both ends,
    as [String.prototype.trim] does on strings with no other white space. *)
Fixpoint drop_spaces (s : string) : string :=
  match s with
  | String " "%char rest => drop_spaces rest
  | _ => s
  end.

Definition trim_spaces (s : string) : string :=
  String.rev (drop_spaces (String.rev (drop_spaces s))).

(** The roster with Ann (id 7), back at the menu; the same while the id of
    a second employee, Bob, is awaited; and while an id to remove is
    awaited. *)
Definition roster_ann : cli :=
  feed_all trim_spaces ["1"; "Ann"; "7"] cli_start.

Definition roster_adding_bob : cli :=
  feed_all trim_spaces ["1"; "Bob"] roster_ann.

Definition roster_removing : cli :=
  feed_all trim_spaces ["3"] roster_ann.

(** * Properties *)

Section Properties.

Variable LOCK_TTL : option Z.

(** ** Reading and writing the table *)

Lemma seat_at_Some s id x :
  seat_at s id = Some x ↔ 0 ≤ id ∧ seats s !! Z.to_nat id = Some x.
Proof.
  unfold seat_at. case_bool_decide; split; intuition (done || lia).
Qed.

Lemma seat_at_of_nat s i : seat_at s (Z.of_nat i) = seats s !! i.
Proof.
  unfold seat_at. rewrite bool_decide_eq_true_2 by lia.
  by rewrite Nat2Z.id.
Qed.

Lemma seat_at_set_seat_eq s id v x :
  seat_at s id = Some x → seat_at (set_seat id v s) id = Some v.
Proof.
  intros [? Hx]%seat_at_Some. apply seat_at_Some. split; [done|].
  simpl. apply list_lookup_insert_eq. by eapply lookup_lt_Some.
Qed.

Lemma seat_at_set_seat_ne s id id' v :
  0 ≤ id → id ≠ id' → seat_at (set_seat id v s) id' = seat_at s id'.
Proof.
  intros ? ?. unfold seat_at. case_bool_decide; [|done].
  simpl. apply list_lookup_insert_ne. lia.
Qed.

(** The two steps every handler takes to replace a record: cancel the
    stored timeout, then assign the new object. *)
Lemma replace_after_clear s id v x :
  seat_at s id = Some x →
  set_seat id v (clearSeatTimer id s)
  = State (<[Z.to_nat id := v]> (seats s))
          (match timeoutId x with
           | Some h => delete h (timers s)
           | None => timers s
           end)
          (next_timer s).
Proof.
  intros Hx. unfold clearSeatTimer, set_seat. rewrite Hx.
  destruct (timeoutId x); simpl; [|done].
  by rewrite list_insert_insert_eq.
Qed.

Lemma clean_seat_timeoutId now x : timeoutId (clean_seat now x) = timeoutId x.
Proof. unfold clean_seat. by destruct (_ && _). Qed.

Lemma seat_at_clean now s id :
  seat_at (cleanExpiredLocks now s) id = clean_seat now <$> seat_at s id.
Proof.
  unfold seat_at, cleanExpiredLocks. simpl.
  case_bool_decide; [|done]. apply list_lookup_fmap.
Qed.

Lemma find_seat_Some s seatId i x :
  find_seat seatId s = Some (i, x) →
  seats s !! i = Some x ∧ seat_id x = Some seatId.
Proof.
  unfold find_seat. intros H. apply list_find_Some in H. tauto.
Qed.

(** ** The invariant holds at startup and after every turn *)

Lemma inv_initial : inv initial_state.
Proof.
  split.
  - reflexivity.
  - intros i x Hx. left.
    change (seats initial_state) with (initial_seat <$> seq 0 50) in Hx.
    rewrite list_lookup_fmap in Hx.
    destruct (seq 0 50 !! i) as [j|] eqn:Hj; [|done].
    apply lookup_seq in Hj as [-> _]. simplify_eq/=.
    unfold api_shaped. simpl. auto 10.
  - intros h t Ht. change (timers initial_state) with (∅ : gmap nat timer) in Ht.
    by rewrite lookup_empty in Ht.
Qed.

Lemma seat_ok_mono n m i x : (n ≤ m)%nat → seat_ok n i x → seat_ok m i x.
Proof.
  intros ? [?|[?|[?|(u & e & h & ? & ?)]]]; unfold seat_ok; eauto.
  right. right. right. exists u, e, h. split; [done|lia].
Qed.

Lemma seat_ok_id_api n i x k :
  seat_ok n i x → seat_id x = Some k → api_shaped i x.
Proof.
  intros [?|[->|[->|(u & e & h & -> & ?)]]] ?; [done|done..].
Qed.

Lemma seat_ok_not_locked_no_timer n i x :
  seat_ok n i x → status x ≠ "locked" → timeoutId x = None.
Proof.
  intros [(? & ? & ? & ?)|[->|[->|(u & e & h & -> & ?)]]] ?; done.
Qed.

(** A seat that stores no handle has no pending timeout. *)
Lemma inv_no_pending s id x :
  inv s → seat_at s id = Some x → timeoutId x = None → no_pending id s.
Proof.
  intros Hinv Hx Hnone h t Ht Hid.
  destruct (inv_timers s Hinv h t Ht) as (_ & y & Hy & Hh).
  rewrite Hid in Hy. congruence.
Qed.

(** Replacing the record at [i] by one that stores no handle, the stored
    timeout (if any) being cancelled, keeps the invariant. *)
Lemma inv_replace s i x x' :
  inv s → seats s !! i = Some x →
  seat_ok (next_timer s) i x' → timeoutId x' = None →
  inv (State (<[i := x']> (seats s))
             (match timeoutId x with
              | Some h => delete h (timers s)
              | None => timers s
              end)
             (next_timer s)).
Proof.
  intros Hinv Hx Hok Hnone. split; simpl.
  - rewrite length_insert. apply Hinv.
  - intros j y Hy. apply list_lookup_insert_Some in Hy.
    destruct Hy as [(-> & -> & _)|(? & Hy)]; [done|].
    by apply (inv_seats s Hinv).
  - intros h t Ht.
    assert (timers s !! h = Some t ∧ timeoutId x ≠ Some h) as [Ht' Hne].
    { destruct (timeoutId x) as [h'|]; [|done].
      apply lookup_delete_Some in Ht as [? ?]. split; [done|congruence]. }
    destruct (inv_timers s Hinv h t Ht') as (? & y & Hy & Hh).
    split; [done|]. exists y. split; [|done].
    apply seat_at_Some in Hy as [? Hy]. apply seat_at_Some. split; [done|].
    simpl. rewrite list_lookup_insert_ne; [done|].
    intros ->. congruence.
Qed.

Lemma inv_replace_at s id x v :
  inv s → seat_at s id = Some x →
  seat_ok (next_timer s) (Z.to_nat id) v → timeoutId v = None →
  inv (set_seat id v (clearSeatTimer id s)).
Proof.
  intros Hinv Hx Hok Hnone. rewrite (replace_after_clear s id v x Hx).
  apply seat_at_Some in Hx as [? Hx]. by apply inv_replace.
Qed.

Lemma inv_clean now s : inv s → inv (cleanExpiredLocks now s).
Proof.
  intros Hinv. split; simpl.
  - rewrite length_fmap. apply Hinv.
  - intros i y Hy. rewrite list_lookup_fmap in Hy.
    destruct (seats s !! i) as [x|] eqn:Hx; [|done]. simplify_eq/=.
    pose proof (inv_seats s Hinv i x Hx) as Hok.
    unfold clean_seat.
    destruct (bool_decide (status x = "locked") && lock_is_stale now x)
      eqn:Hc; [|done].
    apply andb_true_iff in Hc as [Hl Hs]. apply bool_decide_eq_true in Hl.
    destruct Hok as [(? & ? & ? & Hcase)|[->|[->|(u & e & h & -> & ?)]]];
      [|done..].
    left. unfold api_shaped. simpl. split_and!; [done..|]. left.
    destruct Hcase as [(_ & _ & _ & ?)|[(_ & _ & _ & ?)|(? & _)]];
      [done..|congruence].
  - intros h t Ht. destruct (inv_timers s Hinv h t Ht) as (? & x & Hx & Hh).
    split; [done|]. exists (clean_seat now x).
    rewrite seat_at_clean, Hx. by rewrite clean_seat_timeoutId.
Qed.


(** An in-place write by an [/api/seats] handler: the record was found by
    its [id], so it stores no timeout handle. *)
Lemma inv_put s seatId i x x' :
  inv s → find_seat seatId s = Some (i, x) →
  api_shaped i x' → inv (put_seat i x' s).
Proof.
  intros Hinv Hf Hx'. apply find_seat_Some in Hf as [Hx Hid].
  pose proof (inv_seats s Hinv i x Hx) as Hok.
  apply (seat_ok_id_api _ _ _ _ Hok) in Hid as Hapi.
  destruct Hapi as (_ & _ & Hno & _).
  pose proof (inv_replace s i x x' Hinv Hx (or_introl Hx')) as H.
  rewrite Hno in H. apply H. apply Hx'.
Qed.

Lemma api_shaped_found s seatId i x :
  inv s → find_seat seatId s = Some (i, x) → api_shaped i x.
Proof.
  intros Hinv Hf. apply find_seat_Some in Hf as [Hx Hid].
  eapply seat_ok_id_api; [by apply (inv_seats s Hinv)|done].
Qed.

Lemma truthy_Val v : truthy v = true → ∃ u, v = Val u.
Proof. destruct v; simpl; [done..|eauto]. Qed.

Lemma inv_api_lock seatId userId now s :
  inv s → inv (fst (api_lock seatId userId now s)).
Proof.
  intros Hinv. unfold api_lock.
  destruct (truthy userId) eqn:Hu; simpl; [|done].
  destruct (find_seat seatId s) as [[i x]|] eqn:Hf; [|done].
  case_bool_decide as Hs; simpl; [|done].
  apply truthy_Val in Hu as [u ->].
  pose proof (api_shaped_found s seatId i x Hinv Hf) as (? & ? & ? & Hc).
  eapply inv_put; [done..|].
  unfold api_shaped. simpl. split_and!; [done..|].
  right. left. destruct Hc as [(_ & _ & _ & ?)|[(? & _)|(? & _)]];
    [|congruence..].
  split_and!; eauto.
Qed.

Lemma inv_api_confirm seatId userId now s :
  inv s → inv (fst (api_confirm seatId userId now s)).
Proof.
  intros Hinv. unfold api_confirm.
  destruct (truthy userId) eqn:Hu; simpl; [|done].
  destruct (find_seat seatId s) as [[i x]|] eqn:Hf; [|done].
  case_bool_decide as Hs; simpl; [|done].
  case_bool_decide as Hb; simpl; [|done].
  apply truthy_Val in Hu as [u ->].
  pose proof (api_shaped_found s seatId i x Hinv Hf) as (? & ? & ? & Hc).
  assert (bookedBy x = Null) as Hbk.
  { destruct Hc as [(_ & _ & _ & ?)|[(_ & _ & _ & ?)|(? & _)]];
      [done..|congruence]. }
  destruct (lock_is_stale now x); simpl.
  - eapply inv_put; [done..|]. unfold api_shaped. simpl.
    split_and!; [done..|]. left. done.
  - eapply inv_put; [done..|]. unfold api_shaped. simpl.
    split_and!; [done..|]. right. right. split_and!; eauto.
Qed.

Lemma inv_api_release seatId userId s :
  inv s → inv (fst (api_release seatId userId s)).
Proof.
  intros Hinv. unfold api_release.
  destruct (truthy userId) eqn:Hu; simpl; [|done].
  destruct (find_seat seatId s) as [[i x]|] eqn:Hf; [|done].
  case_bool_decide as Hs; simpl; [|done].
  case_bool_decide as Hb; simpl; [|done].
  pose proof (api_shaped_found s seatId i x Hinv Hf) as (? & ? & ? & Hc).
  assert (bookedBy x = Null) as Hbk.
  { destruct Hc as [(_ & _ & _ & ?)|[(_ & _ & _ & ?)|(? & _)]];
      [done..|congruence]. }
  eapply inv_put; [done..|]. unfold api_shaped. simpl.
  split_and!; [done..|]. left. done.
Qed.


(** [armSeatExpiry] right after [/lock] has stored its fresh record, with
    [LOCK_TTL] bound: there is no handle to clear, and a new timeout is
    scheduled. *)
Lemma arm_fresh_lock ttl s id now u e x :
  seat_at s id = Some x →
  armSeatExpiry (Some ttl) id now (set_seat id (locked_obj u e) s)
  = (State (<[Z.to_nat id :=
               set_timeoutId (Some (next_timer s)) (locked_obj u e)]> (seats s))
           (<[next_timer s := Timer id (now + (ttl + 50))]> (timers s))
           (S (next_timer s)),
     Returns).
Proof.
  intros Hx. unfold armSeatExpiry.
  pose proof (seat_at_set_seat_eq s id (locked_obj u e) x Hx) as Hl.
  unfold clearSeatTimer. rewrite Hl. simpl. rewrite Hl.
  unfold set_seat. simpl. by rewrite list_insert_insert_eq.
Qed.

Lemma inv_arm s id u e x t :
  inv s → seat_at s id = Some x → timeoutId x = None →
  inv (State (<[Z.to_nat id :=
                 set_timeoutId (Some (next_timer s)) (locked_obj u e)]>
                (seats s))
             (<[next_timer s := Timer id t]> (timers s))
             (S (next_timer s))).
Proof.
  intros Hinv Hx Hnone.
  apply seat_at_Some in Hx as [Hid Hx]. split; simpl.
  - rewrite length_insert. apply Hinv.
  - intros j y Hy. apply list_lookup_insert_Some in Hy.
    destruct Hy as [(_ & <- & _)|(? & Hy)].
    + right. right. right. eexists _, _, _. split; [done|lia].
    + eapply seat_ok_mono; [|by apply (inv_seats s Hinv)]. lia.
  - intros h t' Ht. apply lookup_insert_Some in Ht.
    destruct Ht as [(<- & <-)|(? & Ht)]; simpl.
    + split; [lia|].
      exists (set_timeoutId (Some (next_timer s)) (locked_obj u e)).
      split; [|done]. apply seat_at_Some. split; [done|]. simpl.
      apply list_lookup_insert_eq. by eapply lookup_lt_Some.
    + destruct (inv_timers s Hinv h t' Ht) as (? & y & Hy & Hh).
      split; [lia|]. exists y. split; [|done].
      apply seat_at_Some in Hy as [? Hy]. apply seat_at_Some.
      split; [done|]. simpl. rewrite list_lookup_insert_ne; [done|].
      intros Heq. rewrite <- Heq in Hy. congruence.
Qed.

Lemma inv_lock id user now s :
  inv s → inv (fst (lock LOCK_TTL id user now s)).
Proof.
  intros Hinv. unfold lock.
  destruct (seat_at s id) as [x|] eqn:Hx; [|done].
  set (s1 := if bool_decide (status x = "locked") && lock_expired now x
             then set_seat id available_obj (clearSeatTimer id s) else s).
  assert (inv s1 ∧ ∃ cur, seat_at s1 id = Some cur
          ∧ (status cur ≠ "locked" → timeoutId cur = None))
    as (Hinv1 & cur & Hcur & Hno).
  { subst s1. destruct (_ && _).
    - split.
      + eapply inv_replace_at; [done..|by right; left|done].
      + exists available_obj. split; [|done].
        rewrite (replace_after_clear s id _ x Hx).
        apply seat_at_Some in Hx as [? Hx]. apply seat_at_Some.
        split; [done|]. simpl. apply list_lookup_insert_eq.
        by eapply lookup_lt_Some.
    - split; [done|]. exists x. split; [done|].
      apply seat_at_Some in Hx as [? Hx].
      eapply seat_ok_not_locked_no_timer. by apply (inv_seats s Hinv). }
  rewrite Hcur. case_bool_decide; [done|]. case_bool_decide; [done|].
  destruct LOCK_TTL as [ttl|]; [|done].
  rewrite (arm_fresh_lock ttl s1 id now _ _ cur Hcur). simpl.
  eapply inv_arm; eauto.
Qed.

Lemma inv_confirm id user now s :
  inv s → inv (fst (confirm id user now s)).
Proof.
  intros Hinv. unfold confirm.
  destruct (seat_at s id) as [x|] eqn:Hx; [|done].
  case_bool_decide; simpl; [|done].
  destruct (lock_expired now x); simpl.
  - eapply inv_replace_at; [done..|by right; left|done].
  - case_bool_decide; simpl; [|done].
    eapply inv_replace_at; [done..|by right; right; left|done].
Qed.

Lemma inv_unlock id s : inv s → inv (fst (unlock id s)).
Proof.
  intros Hinv. unfold unlock.
  destruct (seat_at s id) as [x|] eqn:Hx; [|done].
  case_bool_decide; [done|]. case_bool_decide; [done|]. simpl.
  eapply inv_replace_at; [done..|by right; left|done].
Qed.

(** A timeout that fires is the one its seat stores, so the callback may
    replace the record without leaving another timeout behind. *)
Lemma inv_fire h now s : inv s → inv (fire h now s).
Proof.
  intros Hinv. unfold fire.
  destruct (timers s !! h) as [t|] eqn:Ht; [|done].
  destruct (due t <=? now); [|done].
  destruct (inv_timers s Hinv h t Ht) as (Hlt & x & Hx & Hh).
  pose proof Hx as Hx'. apply seat_at_Some in Hx' as [? Hxi].
  unfold expiry_callback.
  replace (seat_at (State (seats s) (delete h (timers s)) (next_timer s))
             (seatId t)) with (Some x) by done.
  destruct (_ && _).
  - pose proof (inv_replace s (Z.to_nat (seatId t)) x available_obj
                  Hinv Hxi (or_intror (or_introl eq_refl)) eq_refl) as H'.
    rewrite Hh in H'. exact H'.
  - split; simpl.
    + apply Hinv.
    + apply Hinv.
    + intros h' t' Ht'. apply lookup_delete_Some in Ht' as [? Ht'].
      by apply (inv_timers s Hinv).
Qed.

Lemma api_seats_state s : fst (api_seats s) = s.
Proof. unfold api_seats. by destruct (existsb _ _). Qed.

Lemma inv_serve r now s : inv s → inv (fst (serve LOCK_TTL r now s)).
Proof.
  intros Hinv. unfold serve.
  pose proof (inv_clean now s Hinv) as Hc.
  destruct r; simpl; rewrite ?api_seats_state;
    auto using inv_api_lock, inv_api_confirm, inv_api_release,
               inv_lock, inv_confirm, inv_unlock.
Qed.

Lemma inv_step now e s : inv s → inv (fst (step LOCK_TTL now e s)).
Proof.
  intros Hinv. destruct e as [r|h]; simpl.
  - pose proof (inv_serve r now s Hinv) as H.
    destruct (serve LOCK_TTL r now s). exact H.
  - by apply inv_fire.
Qed.

Lemma inv_run trace s : inv s → inv (run LOCK_TTL trace s).
Proof.
  revert s. induction trace as [|[now e] rest IH]; intros s Hinv; simpl.
  - done.
  - apply IH. by apply inv_step.
Qed.

Lemma reachable_inv s : reachable LOCK_TTL s → inv s.
Proof. intros [trace ->]. apply inv_run, inv_initial. Qed.

(** At most one timeout is pending per seat. *)
Lemma one_timeout_per_seat s h h' t t' :
  inv s → timers s !! h = Some t → timers s !! h' = Some t' →
  seatId t = seatId t' → h = h'.
Proof.
  intros Hinv Ht Ht' Hid.
  destruct (inv_timers s Hinv h t Ht) as (_ & x & Hx & Hh).
  destruct (inv_timers s Hinv h' t' Ht') as (_ & x' & Hx' & Hh').
  rewrite Hid in Hx. congruence.
Qed.

(** ** The middleware in front of a route

    A route handler runs on the state the middleware leaves, which is a
    reachable state again, and in which every record that is not a lock
    stamped with [lockedAt] is the one the request found. *)

Lemma run_app trace trace' s :
  run LOCK_TTL (trace ++ trace')%list s
  = run LOCK_TTL trace' (run LOCK_TTL trace s).
Proof.
  revert s. induction trace as [|[now e] rest IH]; intros s; simpl; [done|].
  apply IH.
Qed.

Lemma reachable_step now e s :
  reachable LOCK_TTL s → reachable LOCK_TTL (fst (step LOCK_TTL now e s)).
Proof.
  intros [trace ->]. exists (trace ++ [(now, e)])%list. by rewrite run_app.
Qed.

Lemma reachable_clean now s :
  reachable LOCK_TTL s → reachable LOCK_TTL (cleanExpiredLocks now s).
Proof. intros Hr. apply (reachable_step now (Req SeatsReq) s Hr). Qed.

Lemma clean_keeps_seat now s id x :
  seat_at s id = Some x → status x ≠ "locked" ∨ lockedAt x = Absent →
  seat_at (cleanExpiredLocks now s) id = Some x.
Proof.
  intros Hx Hkeep. rewrite seat_at_clean, Hx. simpl. f_equal.
  unfold clean_seat, lock_is_stale. destruct Hkeep as [Hs|Ha].
  - by rewrite (bool_decide_eq_false_2 _ Hs).
  - rewrite Ha. by rewrite andb_false_r.
Qed.


(** ** The expiry callback *)

Lemma lock_expired_true now x :
  lock_expired now x = true ↔
  ∃ e, lockExpiresAt x = Some e ∧ e ≠ 0 ∧ e ≤ now.
Proof.
  unfold lock_expired. destruct (lockExpiresAt x) as [e|].
  - rewrite andb_true_iff, negb_true_iff, Z.eqb_neq, Z.leb_le.
    split; [eauto|]. intros (e' & [= <-] & ? & ?). done.
  - split; [done|]. intros (e & ? & _). done.
Qed.

Lemma lock_expired_false now x :
  (∀ e, lockExpiresAt x = Some e → now < e) → lock_expired now x = false.
Proof.
  intros Hlive. apply not_true_is_false. intros He.
  apply lock_expired_true in He as (e & He & _ & ?).
  specialize (Hlive e He). lia.
Qed.

Lemma expiry_callback_expired seatId now s x e :
  seat_at s seatId = Some x → status x = "locked" →
  lockExpiresAt x = Some e → e ≠ 0 → e ≤ now →
  expiry_callback seatId now s = set_seat seatId available_obj s.
Proof.
  intros Hx Hl He Hnz Hle. unfold expiry_callback. rewrite Hx.
  rewrite (bool_decide_eq_true_2 _ Hl).
  by rewrite (proj2 (lock_expired_true now x)) by eauto.
Qed.

Lemma expiry_callback_noop seatId now s x :
  seat_at s seatId = Some x →
  ¬ (status x = "locked" ∧ ∃ e, lockExpiresAt x = Some e ∧ e ≤ now) →
  expiry_callback seatId now s = s.
Proof.
  intros Hx Hn. unfold expiry_callback. rewrite Hx.
  destruct (bool_decide (status x = "locked") && lock_expired now x)
    eqn:Hc; [|done].
  apply andb_true_iff in Hc as [Hl He]. apply bool_decide_eq_true in Hl.
  apply lock_expired_true in He as (e & ? & _ & ?).
  destruct Hn. eauto.
Qed.

(** The timeout as a whole: it only leaves the pending set when its seat
    is not an expired lock. *)
Lemma fire_stale_keeps_seats h now s t x :
  timers s !! h = Some t → seat_at s (seatId t) = Some x →
  ¬ (status x = "locked" ∧ ∃ e, lockExpiresAt x = Some e ∧ e ≤ now) →
  seats (fire h now s) = seats s.
Proof.
  intros Ht Hx Hn. unfold fire. rewrite Ht.
  destruct (due t <=? now); [|done].
  set (s' := State (seats s) (delete h (timers s)) (next_timer s)).
  assert (seat_at s' (seatId t) = Some x) as Hx' by done.
  by rewrite (expiry_callback_noop (seatId t) now s' x Hx' Hn).
Qed.

(** C2. When the timeout armed by [/lock] fires, its callback makes the
    seat available (no holder, no expiry left) if the seat is still locked
    and its [lockExpiresAt] (a time stamp, so not 0) is at or before the
    current time, touching no other seat; when the seat is not locked, or
    its expiry lies ahead, the callback leaves the whole state as it was:
    a timeout that outlived its lock changes nothing. *)
Theorem expiry_callback_rechecks (seatId now : Z) (s : state) (x : seat) :
  seat_at s seatId = Some x →
  (status x = "locked" →
   ∀ e, lockExpiresAt x = Some e → e ≠ 0 → e ≤ now →
     (∃ y, seat_at (expiry_callback seatId now s) seatId = Some y
           ∧ status y = "available" ∧ holder_set y = false
           ∧ expiry_set y = false)
     ∧ ∀ id', id' ≠ seatId →
         seat_at (expiry_callback seatId now s) id' = seat_at s id')
  ∧ (¬ (status x = "locked" ∧ ∃ e, lockExpiresAt x = Some e ∧ e ≤ now) →
     expiry_callback seatId now s = s).
Proof.
  intros Hx. split.
  - intros Hl e He Hnz Hle.
    rewrite (expiry_callback_expired seatId now s x e) by done. split.
    + exists available_obj. split; [|done].
      by eapply seat_at_set_seat_eq.
    + intros id' Hne. apply seat_at_Some in Hx as [? _].
      apply seat_at_set_seat_ne; [done|congruence].
  - by apply expiry_callback_noop.
Qed.


(** ** Replacing a record after cancelling its timeout *)

Lemma replaced_seat s id v x :
  seat_at s id = Some x →
  seat_at (set_seat id v (clearSeatTimer id s)) id = Some v.
Proof.
  intros Hx. rewrite (replace_after_clear s id v x Hx).
  apply seat_at_Some in Hx as [? Hx]. apply seat_at_Some.
  split; [done|]. simpl. apply list_lookup_insert_eq.
  by eapply lookup_lt_Some.
Qed.

Lemma replaced_no_pending s id v x :
  inv s → seat_at s id = Some x →
  seat_ok (next_timer s) (Z.to_nat id) v → timeoutId v = None →
  no_pending id (set_seat id v (clearSeatTimer id s)).
Proof.
  intros Hinv Hx Hok Hnone.
  eapply inv_no_pending; [by eapply inv_replace_at| |done].
  by eapply replaced_seat.
Qed.

Lemma replaced_cancels s id v x h :
  seat_at s id = Some x → timeoutId x = Some h →
  timers (set_seat id v (clearSeatTimer id s)) !! h = None.
Proof.
  intros Hx Hh. rewrite (replace_after_clear s id v x Hx), Hh. simpl.
  apply lookup_delete_eq.
Qed.

(** ** [/lock] *)

(** With [LOCK_TTL] unbound, the handler throws where it would acquire
    the lock: on a seat that is neither locked nor booked nothing changes. *)
Lemma lock_throws id user now s x :
  seat_at s id = Some x → status x ≠ "locked" → status x ≠ "booked" →
  lock undeclared id user now s = (s, thrown).
Proof.
  intros Hx Hl Hb. unfold lock. rewrite Hx.
  rewrite (bool_decide_eq_false_2 _ Hl). simpl. rewrite Hx.
  by rewrite (bool_decide_eq_false_2 _ Hb), (bool_decide_eq_false_2 _ Hl).
Qed.

(** On a lock whose [lockExpiresAt] has passed the release at the head of
    the handler has happened when the exception comes. *)
Lemma lock_rethrows id user now s x :
  seat_at s id = Some x → status x = "locked" → lock_expired now x = true →
  lock undeclared id user now s
  = (set_seat id available_obj (clearSeatTimer id s), thrown).
Proof.
  intros Hx Hl He. unfold lock. rewrite Hx.
  rewrite (bool_decide_eq_true_2 _ Hl), He. simpl.
  by rewrite (replaced_seat s id available_obj x Hx).
Qed.

(** With [LOCK_TTL] bound to [ttl] the lock is acquired. *)
Lemma lock_grants ttl id user now s x :
  seat_at s id = Some x → status x ≠ "locked" → status x ≠ "booked" →
  lock (Some ttl) id user now s
  = (State (<[Z.to_nat id :=
               set_timeoutId (Some (next_timer s))
                 (locked_obj (query_user user) (now + ttl))]> (seats s))
           (<[next_timer s := Timer id (now + (ttl + 50))]> (timers s))
           (S (next_timer s)),
     Response 200
       (Message [Lit "Seat "; NumF id;
                 Lit " locked successfully. Confirm within 1 minute."])).
Proof.
  intros Hx Hl Hb. unfold lock. rewrite Hx.
  rewrite (bool_decide_eq_false_2 _ Hl). simpl. rewrite Hx.
  rewrite (bool_decide_eq_false_2 _ Hb), (bool_decide_eq_false_2 _ Hl).
  cbv zeta. by rewrite (arm_fresh_lock ttl s id now _ _ x Hx).
Qed.

Lemma lock_regrants ttl id user now s x :
  seat_at s id = Some x → status x = "locked" → lock_expired now x = true →
  lock (Some ttl) id user now s
  = (State (<[Z.to_nat id :=
               set_timeoutId (Some (next_timer s))
                 (locked_obj (query_user user) (now + ttl))]> (seats s))
           (<[next_timer s := Timer id (now + (ttl + 50))]>
              (match timeoutId x with
               | Some h => delete h (timers s)
               | None => timers s
               end))
           (S (next_timer s)),
     Response 200
       (Message [Lit "Seat "; NumF id;
                 Lit " locked successfully. Confirm within 1 minute."])).
Proof.
  intros Hx Hl He. unfold lock. rewrite Hx.
  rewrite (bool_decide_eq_true_2 _ Hl), He. simpl.
  set (s1 := set_seat id available_obj (clearSeatTimer id s)).
  assert (seat_at s1 id = Some available_obj) as H1.
  { subst s1. by eapply replaced_seat. }
  rewrite H1. simpl. cbv zeta.
  rewrite (arm_fresh_lock ttl s1 id now _ _ available_obj H1).
  subst s1. rewrite (replace_after_clear s id _ x Hx). simpl.
  by rewrite list_insert_insert_eq.
Qed.

Lemma lock_refuses_locked id user now s x :
  seat_at s id = Some x → status x = "locked" → lock_expired now x = false →
  lock LOCK_TTL id user now s
  = (s, Response 423
          (Message [Lit "Seat "; NumF id;
                    Lit " is already locked. Try another seat."])).
Proof.
  intros Hx Hl He. unfold lock. rewrite Hx.
  rewrite (bool_decide_eq_true_2 _ Hl), He. simpl. rewrite Hx.
  rewrite bool_decide_eq_false_2 by (rewrite Hl; discriminate).
  by rewrite (bool_decide_eq_true_2 _ Hl).
Qed.

Lemma lock_refuses_booked id user now s x :
  seat_at s id = Some x → status x = "booked" →
  lock LOCK_TTL id user now s
  = (s, Response 409
          (Message [Lit "Seat "; NumF id; Lit " is already booked."])).
Proof.
  intros Hx Hb. unfold lock. rewrite Hx.
  rewrite bool_decide_eq_false_2 by (rewrite Hb; discriminate).
  simpl. rewrite Hx. by rewrite (bool_decide_eq_true_2 _ Hb).
Qed.

(** ** [/confirm] *)

Lemma confirm_not_locked id user now s x :
  seat_at s id = Some x → status x ≠ "locked" →
  confirm id user now s
  = (s, Response 400
          (Message [Lit "Seat is not locked and cannot be booked"])).
Proof.
  intros Hx Hl. unfold confirm. rewrite Hx.
  by rewrite (bool_decide_eq_false_2 _ Hl).
Qed.

Lemma confirm_expired id user now s x :
  seat_at s id = Some x → status x = "locked" → lock_expired now x = true →
  confirm id user now s
  = (set_seat id available_obj (clearSeatTimer id s),
     Response 408 (Message [Lit "Lock expired. Please lock the seat again."])).
Proof.
  intros Hx Hl He. unfold confirm. rewrite Hx.
  by rewrite (bool_decide_eq_true_2 _ Hl), He.
Qed.

Lemma confirm_wrong_holder id user now s x :
  seat_at s id = Some x → status x = "locked" → lock_expired now x = false →
  lockedBy x ≠ Val (IStr (query_user user)) →
  confirm id user now s
  = (s, Response 403 (Message [Lit "Seat locked by another user."])).
Proof.
  intros Hx Hl He Hu. unfold confirm. rewrite Hx.
  rewrite (bool_decide_eq_true_2 _ Hl), He.
  by rewrite (bool_decide_eq_false_2 _ Hu).
Qed.

Lemma confirm_books id user now s x :
  seat_at s id = Some x → status x = "locked" → lock_expired now x = false →
  lockedBy x = Val (IStr (query_user user)) →
  confirm id user now s
  = (set_seat id booked_obj (clearSeatTimer id s),
     Response 200
       (Message [Lit "Seat "; NumF id; Lit " booked successfully!"])).
Proof.
  intros Hx Hl He Hu. unfold confirm. rewrite Hx.
  rewrite (bool_decide_eq_true_2 _ Hl), He.
  by rewrite (bool_decide_eq_true_2 _ Hu).
Qed.

(** ** [/unlock] *)

Lemma unlock_available id s x :
  seat_at s id = Some x → status x = "available" →
  unlock id s
  = (s, Response 200
          (Message [Lit "Seat "; NumF id; Lit " already available."])).
Proof.
  intros Hx Ha. unfold unlock. rewrite Hx.
  by rewrite (bool_decide_eq_true_2 _ Ha).
Qed.

Lemma unlock_booked id s x :
  seat_at s id = Some x → status x = "booked" →
  unlock id s
  = (s, Response 409
          (Message [Lit "Seat "; NumF id; Lit " is booked; cannot unlock."])).
Proof.
  intros Hx Hb. unfold unlock. rewrite Hx.
  rewrite bool_decide_eq_false_2 by (rewrite Hb; discriminate).
  by rewrite (bool_decide_eq_true_2 _ Hb).
Qed.

Lemma unlock_locked id s x :
  seat_at s id = Some x → status x = "locked" →
  unlock id s
  = (set_seat id available_obj (clearSeatTimer id s),
     Response 200 (Message [Lit "Seat "; NumF id; Lit " lock cleared."])).
Proof.
  intros Hx Hl. unfold unlock. rewrite Hx.
  rewrite bool_decide_eq_false_2 by (rewrite Hl; discriminate).
  by rewrite bool_decide_eq_false_2 by (rewrite Hl; discriminate).
Qed.

(** C7. [/unlock] on an existing seat of a reachable state, with no check
    of any holder: an available seat gets 200 "already available" and the
    state is untouched; a booked seat gets 409 and the state is untouched;
    a locked seat is made available with holder and expiry gone, its
    timeout is no longer pending, and the answer is 200. *)
Theorem unlock_cases (id : Z) (s : state) (x : seat) :
  reachable LOCK_TTL s → seat_at s id = Some x →
  (status x = "available" →
   unlock id s
   = (s, Response 200
           (Message [Lit "Seat "; NumF id; Lit " already available."])))
  ∧ (status x = "booked" →
     unlock id s
     = (s, Response 409
             (Message [Lit "Seat "; NumF id;
                       Lit " is booked; cannot unlock."])))
  ∧ (status x = "locked" →
     snd (unlock id s)
     = Response 200 (Message [Lit "Seat "; NumF id; Lit " lock cleared."])
     ∧ freed id (fst (unlock id s))
     ∧ no_pending id (fst (unlock id s))).
Proof.
  intros Hr Hx. apply reachable_inv in Hr. split_and!.
  - by apply unlock_available.
  - by apply unlock_booked.
  - intros Hl. rewrite (unlock_locked id s x Hx Hl). simpl. split_and!.
    + done.
    + exists available_obj. split; [|done]. by eapply replaced_seat.
    + eapply replaced_no_pending; [done..|by right; left|done].
Qed.


(** ** [/api/seats/:id/release] *)

Lemma api_release_not_locked seatId userId s i x :
  truthy userId = true → find_seat seatId s = Some (i, x) →
  status x ≠ "locked" →
  api_release seatId userId s = (s, api_fail 400 "Seat is not locked").
Proof.
  intros Hu Hf Hl. unfold api_release. rewrite Hu, Hf. simpl.
  by rewrite (bool_decide_eq_false_2 _ Hl).
Qed.

Lemma api_release_wrong_holder seatId userId s i x :
  truthy userId = true → find_seat seatId s = Some (i, x) →
  status x = "locked" → lockedBy x ≠ userId →
  api_release seatId userId s
  = (s, api_fail 403 "Seat is locked by another user").
Proof.
  intros Hu Hf Hl Hb. unfold api_release. rewrite Hu, Hf. simpl.
  rewrite (bool_decide_eq_true_2 _ Hl). simpl.
  by rewrite (bool_decide_eq_false_2 _ Hb).
Qed.

Lemma api_release_frees seatId userId s i x :
  truthy userId = true → find_seat seatId s = Some (i, x) →
  status x = "locked" → lockedBy x = userId →
  api_release seatId userId s
  = (put_seat i (set_lockedAt Null
                   (set_lockedBy Null (set_status "available" x))) s,
     api_ok "Seat released successfully"
       (set_lockedAt Null (set_lockedBy Null (set_status "available" x)))).
Proof.
  intros Hu Hf Hl Hb. unfold api_release. rewrite Hu, Hf. simpl.
  rewrite (bool_decide_eq_true_2 _ Hl). simpl.
  by rewrite (bool_decide_eq_true_2 _ Hb).
Qed.

(** C6. [/api/seats/:id/release] with a caller identity, on a seat found
    by its id in a reachable state: a seat that is not locked is refused
    with 400 and nothing changes; a lock of another holder is refused with
    403 and nothing changes; the holder's own lock is released: the record
    becomes available with holder and expiry gone, no timeout is pending
    for the seat, and the answer carries the updated record. *)
Theorem api_release_cases (seatId : Z) (userId : field ident) (s : state)
    (i : nat) (x : seat) :
  reachable LOCK_TTL s → truthy userId = true →
  find_seat seatId s = Some (i, x) →
  (status x ≠ "locked" →
   api_release seatId userId s = (s, api_fail 400 "Seat is not locked"))
  ∧ (status x = "locked" → lockedBy x ≠ userId →
     api_release seatId userId s
     = (s, api_fail 403 "Seat is locked by another user"))
  ∧ (status x = "locked" → lockedBy x = userId →
     ∃ s' y, api_release seatId userId s
             = (s', api_ok "Seat released successfully" y)
       ∧ seats s' !! i = Some y ∧ seat_id y = Some seatId
       ∧ status y = "available" ∧ holder_set y = false
       ∧ expiry_set y = false
       ∧ no_pending (Z.of_nat i) s'
       ∧ returned_record (snd (api_release seatId userId s)) = Some y).
Proof.
  intros Hr Hu Hf. apply reachable_inv in Hr. split_and!.
  - by apply (api_release_not_locked seatId userId s i x).
  - by apply (api_release_wrong_holder seatId userId s i x).
  - intros Hl Hb.
    rewrite (api_release_frees seatId userId s i x Hu Hf Hl Hb).
    eexists _, _. split; [reflexivity|].
    pose proof (api_shaped_found s seatId i x Hr Hf) as (? & Hexp & Hno & Hc).
    pose proof (find_seat_Some s seatId i x Hf) as [Hx Hid].
    assert (bookedBy x = Null) as Hbk.
    { destruct Hc as [(_ & _ & _ & ?)|[(_ & _ & _ & ?)|(? & _)]];
        [done..|congruence]. }
    assert (seats (put_seat i (set_lockedAt Null
              (set_lockedBy Null (set_status "available" x))) s) !! i
            = Some (set_lockedAt Null
                      (set_lockedBy Null (set_status "available" x))))
      as Hy.
    { simpl. apply list_lookup_insert_eq. by eapply lookup_lt_Some. }
    split_and!; [done|done|done| | | |done].
    + unfold holder_set. simpl. by rewrite Hbk.
    + unfold expiry_set. simpl. by rewrite Hexp.
    + eapply inv_no_pending.
      * eapply (inv_put s seatId i x); [done..|].
        unfold api_shaped. simpl. split_and!; [done..|]. by left.
      * rewrite seat_at_of_nat. exact Hy.
      * done.
Qed.

(** ** Caller identity and seat existence *)

Lemma api_lock_no_identity seatId userId now s :
  truthy userId = false →
  api_lock seatId userId now s = (s, api_fail 400 "User ID is required").
Proof. intros Hu. unfold api_lock. by rewrite Hu. Qed.

Lemma api_confirm_no_identity seatId userId now s :
  truthy userId = false →
  api_confirm seatId userId now s = (s, api_fail 400 "User ID is required").
Proof. intros Hu. unfold api_confirm. by rewrite Hu. Qed.

Lemma api_release_no_identity seatId userId s :
  truthy userId = false →
  api_release seatId userId s = (s, api_fail 400 "User ID is required").
Proof. intros Hu. unfold api_release. by rewrite Hu. Qed.

(** The ids the table ever carries are 1..50. *)
Lemma find_seat_out_of_range seatId s :
  inv s → seatId < 1 ∨ 50 < seatId → find_seat seatId s = None.
Proof.
  intros Hinv Hout. unfold find_seat. apply list_find_None.
  apply Forall_forall. intros x Hin Hid.
  apply list_elem_of_lookup in Hin as [i Hx].
  pose proof (inv_seats s Hinv i x Hx) as Hok.
  destruct (seat_ok_id_api _ _ _ _ Hok Hid) as (Hid' & _).
  apply lookup_lt_Some in Hx. rewrite (inv_length s Hinv) in Hx.
  rewrite Hid in Hid'. simplify_eq. lia.
Qed.

(** The indices of the table are 0..49. *)
Lemma seat_at_out_of_range id s :
  inv s → id < 0 ∨ 50 ≤ id → seat_at s id = None.
Proof.
  intros Hinv Hout. unfold seat_at. case_bool_decide; [|done].
  apply lookup_ge_None. rewrite (inv_length s Hinv). lia.
Qed.

(** C9, as the handlers have it. In a reachable state: the three
    [/api/seats] operations refuse a missing, null or empty [userId] with
    400 "User ID is required" before they look the seat up; given an
    identity they answer 404 for an id outside 1..50; [/lock], [/confirm]
    and [/unlock] answer 404 for an index outside 0..49 whatever the
    [user] parameter is, and [/lock] and [/confirm] serve a missing or
    empty [user] exactly as they serve the user 'anonymous'. *)
Theorem identity_and_existence (s : state) (now : Z) :
  reachable LOCK_TTL s →
  (∀ seatId userId, truthy userId = false →
     api_lock seatId userId now s = (s, api_fail 400 "User ID is required")
     ∧ api_confirm seatId userId now s
       = (s, api_fail 400 "User ID is required")
     ∧ api_release seatId userId s
       = (s, api_fail 400 "User ID is required"))
  ∧ (∀ seatId userId, truthy userId = true → seatId < 1 ∨ 50 < seatId →
     api_lock seatId userId now s = (s, api_fail 404 "Seat not found")
     ∧ api_confirm seatId userId now s = (s, api_fail 404 "Seat not found")
     ∧ api_release seatId userId s = (s, api_fail 404 "Seat not found"))
  ∧ (∀ id user, id < 0 ∨ 50 ≤ id →
     lock LOCK_TTL id user now s = (s, not_exist id)
     ∧ confirm id user now s = (s, not_exist id)
     ∧ unlock id s = (s, not_exist id))
  ∧ (∀ id u, u = None ∨ u = Some "" →
     lock LOCK_TTL id u now s = lock LOCK_TTL id (Some "anonymous") now s
     ∧ confirm id u now s = confirm id (Some "anonymous") now s).
Proof.
  intros Hr. apply reachable_inv in Hr. split_and!.
  - intros seatId userId Hu.
    auto using api_lock_no_identity, api_confirm_no_identity,
               api_release_no_identity.
  - intros seatId userId Hu Hout.
    pose proof (find_seat_out_of_range seatId s Hr Hout) as Hf.
    unfold api_lock, api_confirm, api_release. by rewrite Hu, Hf.
  - intros id user Hout.
    pose proof (seat_at_out_of_range id s Hr Hout) as Hx.
    unfold lock, confirm, unlock. by rewrite Hx.
  - by intros id u [->| ->].
Qed.


(** ** Requests without a [user] parameter *)

Lemma query_user_anonymous u :
  u = None ∨ u = Some "" → query_user u = "anonymous".
Proof. by intros [->| ->]. Qed.

(** ** The reservation record in reachable states *)

Lemma seat_ok_record n i x : seat_ok n i x → record_ok_but_booking_owner x.
Proof.
  intros Hok. destruct x as [sid st lb la bb le ti].
  unfold seat_ok, api_shaped, timed_lock, available_obj, booked_obj,
    locked_obj, set_timeoutId in Hok. simpl in Hok.
  unfold record_ok_but_booking_owner, holder_set, expiry_set. simpl.
  destruct Hok as [(_ & He & _ & Hc)|[Heq|[Heq|(u & e & h & Heq & _)]]].
  - subst le.
    destruct Hc as [(? & ? & ? & ?)
                   |[(? & [u ?] & [t ?] & ?)|(? & ? & ? & [u ?])]];
      subst; split_and!; auto 6; try done; try (split; done).
  - injection Heq; intros; subst.
    split_and!; auto 6; try done; try (split; done).
  - injection Heq; intros; subst.
    split_and!; auto 6; try done; try (split; done).
  - injection Heq; intros; subst.
    split_and!; auto 6; try done; try (split; done).
Qed.

(** The part of the record invariant that every reachable state keeps:
    the status is one of the three, an available seat has no holder, a
    locked seat has one, and a lock stamp is set exactly on locked seats. *)
Lemma reachable_record s i x :
  reachable LOCK_TTL s → seats s !! i = Some x →
  record_ok_but_booking_owner x.
Proof.
  intros Hr Hx. apply reachable_inv in Hr.
  eapply seat_ok_record. by apply (inv_seats s Hr).
Qed.

(** A seat booked through [/api/seats/:id/confirm] keeps its owner. *)
Lemma api_confirm_keeps_owner seatId u now s i x :
  ident_truthy u = true → find_seat seatId s = Some (i, x) →
  status x = "locked" → lockedBy x = Val u → lock_is_stale now x = false →
  ∃ y, api_confirm seatId (Val u) now s
       = (put_seat i y s, api_ok "Booking confirmed successfully" y)
    ∧ status y = "booked" ∧ bookedBy y = Val u ∧ holder_set y = true
    ∧ lockedAt y = Null.
Proof.
  intros Hu Hf Hl Hb Hs. unfold api_confirm. simpl. rewrite Hu, Hf. simpl.
  rewrite (bool_decide_eq_true_2 _ Hl). simpl.
  rewrite (bool_decide_eq_true_2 _ Hb). simpl. rewrite Hs.
  eexists. split; [reflexivity|]. done.
Qed.

End Properties.

(** * The program as it stands

    With [LOCK_TTL] unbound, [/lock] throws before it stores anything and
    [armSeatExpiry] is never reached: the records keep the shapes of the
    [/api/seats] family or are the bare objects [/confirm] and [/unlock]
    assign. *)

Lemma untimed_initial : untimed initial_state.
Proof.
  split_and!; [done..|]. intros i x Hx.
  change (seats initial_state) with (initial_seat <$> seq 0 50) in Hx.
  rewrite list_lookup_fmap in Hx.
  destruct (seq 0 50 !! i) as [j|]; [|done]. by simplify_eq/=.
Qed.

Lemma untimed_seat_at s id x :
  untimed s → seat_at s id = Some x →
  lockExpiresAt x = None ∧ timeoutId x = None.
Proof. intros (_ & _ & H) [_ Hx]%seat_at_Some. by eapply H. Qed.

Lemma untimed_clean now s : untimed s → untimed (cleanExpiredLocks now s).
Proof.
  intros (Ht & Hn & Hs). split_and!; [done..|]. intros i y Hy.
  simpl in Hy. rewrite list_lookup_fmap in Hy.
  destruct (seats s !! i) as [x|] eqn:Hx; [|done]. simplify_eq/=.
  destruct (Hs i x Hx) as [? ?]. unfold clean_seat. by destruct (_ && _).
Qed.

Lemma untimed_insert s i v :
  untimed s → lockExpiresAt v = None → timeoutId v = None →
  untimed (State (<[i := v]> (seats s)) (timers s) (next_timer s)).
Proof.
  intros (Ht & Hn & Hs) ? ?. split_and!; [done..|]. intros j y Hy.
  simpl in Hy.
  apply list_lookup_insert_Some in Hy as [(_ & <- & _)|(_ & Hy)];
    [done|by eapply Hs].
Qed.

Lemma untimed_clear id s : untimed s → clearSeatTimer id s = s.
Proof.
  intros Hu. unfold clearSeatTimer.
  destruct (seat_at s id) as [x|] eqn:Hx; [|done].
  by destruct (untimed_seat_at s id x Hu Hx) as [_ ->].
Qed.

Lemma untimed_live now s id x :
  untimed s → seat_at s id = Some x → lock_expired now x = false.
Proof.
  intros Hu Hx. destruct (untimed_seat_at s id x Hu Hx) as [He _].
  unfold lock_expired. by rewrite He.
Qed.

(** [/lock] stores nothing and never answers 200. *)
Lemma lock_untimed id user now s :
  untimed s →
  fst (lock undeclared id user now s) = s
  ∧ (code (snd (lock undeclared id user now s)) = 404
     ∨ code (snd (lock undeclared id user now s)) = 409
     ∨ code (snd (lock undeclared id user now s)) = 423
     ∨ code (snd (lock undeclared id user now s)) = 500).
Proof.
  intros Hu. unfold lock. destruct (seat_at s id) as [x|] eqn:Hx;
    [|simpl; auto].
  rewrite (untimed_live now s id x Hu Hx), andb_false_r. rewrite Hx.
  case_bool_decide; [simpl; auto|]. case_bool_decide; simpl; auto.
Qed.

(** [/confirm] never meets a [lockExpiresAt]: it refuses, or books. *)
Lemma confirm_untimed id user now s :
  untimed s →
  (fst (confirm id user now s) = s
   ∧ (code (snd (confirm id user now s)) = 404
      ∨ code (snd (confirm id user now s)) = 400
      ∨ code (snd (confirm id user now s)) = 403))
  ∨ (confirm id user now s
     = (set_seat id booked_obj s,
        Response 200
          (Message [Lit "Seat "; NumF id; Lit " booked successfully!"]))).
Proof.
  intros Hu. unfold confirm. destruct (seat_at s id) as [x|] eqn:Hx;
    [|simpl; auto].
  case_bool_decide; simpl; [|auto].
  rewrite (untimed_live now s id x Hu Hx).
  case_bool_decide; simpl; [|auto].
  right. by rewrite (untimed_clear id s Hu).
Qed.

Lemma untimed_api_lock seatId userId now s :
  untimed s → untimed (fst (api_lock seatId userId now s)).
Proof.
  intros Hu. unfold api_lock. destruct (truthy userId); simpl; [|done].
  destruct (find_seat seatId s) as [[i x]|] eqn:Hf; [|done].
  case_bool_decide; simpl; [|done].
  apply find_seat_Some in Hf as [Hx _].
  destruct Hu as (? & ? & Hs). destruct (Hs i x Hx).
  by apply untimed_insert.
Qed.

Lemma untimed_api_confirm seatId userId now s :
  untimed s → untimed (fst (api_confirm seatId userId now s)).
Proof.
  intros Hu. unfold api_confirm. destruct (truthy userId); simpl; [|done].
  destruct (find_seat seatId s) as [[i x]|] eqn:Hf; [|done].
  case_bool_decide; simpl; [|done]. case_bool_decide; simpl; [|done].
  apply find_seat_Some in Hf as [Hx _].
  destruct Hu as (? & ? & Hs). destruct (Hs i x Hx).
  destruct (lock_is_stale now x); simpl; by apply untimed_insert.
Qed.

Lemma untimed_api_release seatId userId s :
  untimed s → untimed (fst (api_release seatId userId s)).
Proof.
  intros Hu. unfold api_release. destruct (truthy userId); simpl; [|done].
  destruct (find_seat seatId s) as [[i x]|] eqn:Hf; [|done].
  case_bool_decide; simpl; [|done]. case_bool_decide; simpl; [|done].
  apply find_seat_Some in Hf as [Hx _].
  destruct Hu as (? & ? & Hs). destruct (Hs i x Hx).
  by apply untimed_insert.
Qed.

Lemma untimed_lock id user now s :
  untimed s → untimed (fst (lock undeclared id user now s)).
Proof.
  intros Hu. by rewrite (proj1 (lock_untimed id user now s Hu)).
Qed.

Lemma untimed_confirm id user now s :
  untimed s → untimed (fst (confirm id user now s)).
Proof.
  intros Hu.
  destruct (confirm_untimed id user now s Hu) as [[-> _]| ->]; [done|].
  by apply untimed_insert.
Qed.

Lemma untimed_unlock id s : untimed s → untimed (fst (unlock id s)).
Proof.
  intros Hu. unfold unlock. destruct (seat_at s id) as [x|] eqn:Hx; [|done].
  case_bool_decide; [done|]. case_bool_decide; [done|]. simpl.
  rewrite (untimed_clear id s Hu). by apply untimed_insert.
Qed.

Lemma untimed_fire h now s : untimed s → fire h now s = s.
Proof.
  intros (Ht & _). unfold fire. by rewrite Ht, lookup_empty.
Qed.

Lemma untimed_serve r now s :
  untimed s → untimed (fst (serve undeclared r now s)).
Proof.
  intros Hu. unfold serve.
  pose proof (untimed_clean now s Hu) as Hc.
  destruct r; simpl; rewrite ?api_seats_state;
    auto using untimed_api_lock, untimed_api_confirm, untimed_api_release,
               untimed_lock, untimed_confirm, untimed_unlock.
Qed.

Lemma untimed_step now e s :
  untimed s → untimed (fst (step undeclared now e s)).
Proof.
  intros Hu. destruct e as [r|h]; simpl.
  - pose proof (untimed_serve r now s Hu) as H.
    by destruct (serve undeclared r now s).
  - by rewrite untimed_fire.
Qed.

Lemma untimed_run trace s : untimed s → untimed (run undeclared trace s).
Proof.
  revert s. induction trace as [|[now e] rest IH]; intros s Hu; simpl.
  - done.
  - apply IH. by apply untimed_step.
Qed.

Lemma reachable_untimed s : reachable undeclared s → untimed s.
Proof. intros [trace ->]. apply untimed_run, untimed_initial. Qed.

(** In a run of the program every lock is one of [/api/seats/:id/lock]:
    it has a holder and the [lockedAt] stamp its deadline counts from. *)
Lemma untimed_lock_is_stamped s i x :
  inv s → untimed s → seats s !! i = Some x → status x = "locked" →
  api_shaped i x ∧ ∃ t, lockedAt x = Val t.
Proof.
  intros Hinv (_ & _ & Hs) Hx Hl. destruct (Hs i x Hx) as [He _].
  destruct (inv_seats s Hinv i x Hx)
    as [Hapi|[->|[->|(u & e & h & -> & _)]]]; [|done..].
  split; [done|].
  destruct Hapi as (_ & _ & _ & [(? & _)|[(_ & _ & ? & _)|(? & _)]]);
    [congruence|done|congruence].
Qed.

(** ** [GET /seats] behind the middleware *)

Lemma served_view now s :
  snd (serve undeclared SeatsReq now s)
  = Response 200
      (View (imap (λ i x, (i, status x)) (clean_seat now <$> seats s))).
Proof. done. Qed.

Lemma clean_seat_status now x :
  status (clean_seat now x) = "locked" →
  status x = "locked" ∧ lock_is_stale now x = false.
Proof.
  unfold clean_seat. case_bool_decide as Hl; simpl.
  - destruct (lock_is_stale now x); [done|]. by intros _.
  - done.
Qed.

(** C8. In every state the program reaches, [GET /seats] (served behind
    [cleanExpiredLocks]) answers with a view in which no seat past its
    deadline is locked: every locked seat carries the [lockedAt] stamp its
    deadline [lockedAt + 60000] counts from; once that deadline has passed
    the view shows the seat as available; and an entry that says 'locked'
    belongs to a lock whose deadline has not passed. *)
Theorem seats_view_is_normalised (s : state) (now : Z) :
  reachable undeclared s →
  ∃ v, snd (serve undeclared SeatsReq now s) = Response 200 (View v)
    ∧ (∀ i x, seats s !! i = Some x → status x = "locked" →
         (∃ t, lockedAt x = Val t)
         ∧ (past_deadline now x → v !! i = Some (i, "available")))
    ∧ (∀ i, v !! i = Some (i, "locked") →
         ∃ x t, seats s !! i = Some x ∧ status x = "locked"
                ∧ lockedAt x = Val t ∧ now ≤ t + LOCK_EXPIRATION_TIME).
Proof.
  intros Hr. pose proof (reachable_inv undeclared s Hr) as Hinv.
  apply reachable_untimed in Hr as Hu.
  eexists. split; [apply served_view|]. split.
  - intros i x Hx Hl.
    destruct (untimed_lock_is_stamped s i x Hinv Hu Hx Hl) as [_ [t Ht]].
    split; [eauto|]. intros (t' & Ht' & Hlate).
    rewrite list_lookup_imap, list_lookup_fmap, Hx. simpl. do 2 f_equal.
    unfold clean_seat, lock_is_stale. rewrite Ht'.
    rewrite (bool_decide_eq_true_2 _ Hl). simpl.
    by rewrite (proj2 (Z.ltb_lt _ _)) by lia.
  - intros i Hv. rewrite list_lookup_imap, list_lookup_fmap in Hv.
    destruct (seats s !! i) as [x|] eqn:Hx; [|done]. simpl in Hv.
    injection Hv as Hst.
    apply clean_seat_status in Hst as [Hl Hlive].
    destruct (untimed_lock_is_stamped s i x Hinv Hu Hx Hl) as [_ [t Ht]].
    exists x, t. split_and!; [done..|].
    unfold lock_is_stale in Hlive. rewrite Ht in Hlive.
    apply Z.ltb_ge in Hlive. lia.
Qed.


(** * Concrete runs *)

Lemma initial_reachable : reachable undeclared initial_state.
Proof. by exists []. Qed.

Lemma alice_api_locked_reachable : reachable undeclared alice_api_locked.
Proof. by eexists. Qed.

Lemma alice_seat1_reachable : reachable undeclared alice_seat1.
Proof. by eexists. Qed.

Lemma alice_booked_reachable : reachable undeclared alice_booked.
Proof. by eexists. Qed.

Lemma alice_unlocked_reachable : reachable undeclared alice_unlocked.
Proof. by eexists. Qed.

Lemma alice_locked_reachable : reachable (Some minute) alice_locked.
Proof. by eexists. Qed.

Lemma alice_locked_seat : seat_at alice_locked 0 = Some alice_lock.
Proof. reflexivity. Qed.

Lemma alice_api_locked_seat :
  find_seat 3 alice_api_locked = Some (2%nat, alice_api_lock).
Proof. reflexivity. Qed.

Lemma alice_seat1_seat : seat_at alice_seat1 0 = Some alice_seat1_lock.
Proof. reflexivity. Qed.

Lemma alice_booked_seat : seat_at alice_booked 0 = Some booked_obj.
Proof. reflexivity. Qed.

Lemma alice_unlocked_seat : seat_at alice_unlocked 0 = Some available_obj.
Proof. reflexivity. Qed.

(** Witness of C2: the callback armed for a lock of seat 0 that expires
    at 61000 frees the seat when run at 61050, and changes nothing when
    run at 2000. *)
Lemma expiry_callback_rechecks_witness :
  seat_at alice_locked 0 = Some alice_lock
  ∧ (∃ y, seat_at (expiry_callback 0 61050 alice_locked) 0 = Some y
          ∧ status y = "available" ∧ holder_set y = false
          ∧ expiry_set y = false)
  ∧ expiry_callback 0 2000 alice_locked = alice_locked.
Proof.
  pose proof (expiry_callback_rechecks 0 61050 alice_locked alice_lock
                eq_refl) as [Hfree _].
  pose proof (expiry_callback_rechecks 0 2000 alice_locked alice_lock
                eq_refl) as [_ Hkeep].
  split; [reflexivity|]. split.
  - apply (Hfree eq_refl 61000 eq_refl); lia.
  - apply Hkeep. intros (_ & e & He & Hle). injection He as <-. lia.
Defined.

(** C3 fails on the code. At startup seat 0 is available, and
    [POST /lock/0?user=alice] is answered 500: the handler throws where it
    reads [LOCK_TTL], nothing is stored, and seat 0 is still the available
    record it was. *)
Theorem lock_throws_on_available_seat :
  (seat_at initial_state 0 = Some (initial_seat 0)
   ∧ status (initial_seat 0) = "available")
  ∧ serve undeclared (Lock 0 (Some "alice")) 1000 initial_state
    = (initial_state, thrown)
  ∧ code thrown = 500
  ∧ ∀ trace, seat_at (run undeclared ((1000, Req (Lock 0 (Some "alice")))
                                      :: trace) initial_state) 0
             = seat_at (run undeclared trace initial_state) 0.
Proof.
  split; [split; reflexivity|]. split; [reflexivity|].
  split; [reflexivity|]. intros trace. reflexivity.
Qed.

(** C1 fails on the code. After [POST /api/seats/1/lock] by alice at time
    1000 and [POST /confirm/0?user=alice] at time 2000 the state is
    reachable and seat 0 is booked with no holder: [/confirm] stored
    [{ status: 'booked' }] and nothing else, so the record invariant does
    not hold. *)
Theorem booked_record_without_holder :
  reachable undeclared alice_booked
  ∧ ∃ x, seat_at alice_booked 0 = Some x
         ∧ status x = "booked" ∧ lockedBy x = Absent ∧ bookedBy x = Absent
         ∧ holder_set x = false ∧ ¬ record_ok x.
Proof.
  split; [apply alice_booked_reachable|].
  exists booked_obj. split_and!; try reflexivity.
  intros (_ & Hholder & _).
  assert (holder_set booked_obj = true) as H; [|discriminate H].
  apply Hholder. discriminate.
Qed.

(** C4 fails on the code. Alice holds seat 0 with the lock she took at
    time 1000, which runs until 61000; her [POST /confirm/0?user=alice]
    at time 2000 is answered 200, the seat is booked, it has no expiry
    and no timeout is pending, and the record keeps neither [lockedBy]
    nor a [bookedBy]: the holder is lost. *)
Theorem confirm_forgets_holder :
  (reachable undeclared alice_seat1
   ∧ seat_at alice_seat1 0 = Some alice_seat1_lock
   ∧ lockedBy alice_seat1_lock = Val (IStr "alice")
   ∧ lockedAt alice_seat1_lock = Val 1000
   ∧ ¬ past_deadline 2000 alice_seat1_lock)
  ∧ code (snd (serve undeclared (Confirm 0 (Some "alice")) 2000 alice_seat1))
    = 200
  ∧ ∃ y, seat_at
           (fst (serve undeclared (Confirm 0 (Some "alice")) 2000
                   alice_seat1)) 0
         = Some y
      ∧ status y = "booked" ∧ lockExpiresAt y = None
      ∧ timers
          (fst (serve undeclared (Confirm 0 (Some "alice")) 2000
                  alice_seat1))
        = ∅
      ∧ lockedBy y = Absent ∧ bookedBy y = Absent
      ∧ holder_set y = false.
Proof.
  split.
  { split_and!; [apply alice_seat1_reachable|reflexivity..|].
    intros (t & Ht & Hlate). injection Ht as <-.
    unfold LOCK_EXPIRATION_TIME in Hlate. lia. }
  split; [reflexivity|].
  exists booked_obj. split_and!; reflexivity.
Qed.


(** Witness of C7: unlock of a free seat, of the seat alice booked and of
    the seat alice holds. *)
Lemma unlock_cases_witness :
  (reachable undeclared alice_seat1
   ∧ seat_at alice_seat1 0 = Some alice_seat1_lock)
  ∧ unlock 0 initial_state
    = (initial_state,
       Response 200
         (Message [Lit "Seat "; NumF 0; Lit " already available."]))
  ∧ unlock 0 alice_booked
    = (alice_booked,
       Response 409
         (Message [Lit "Seat "; NumF 0; Lit " is booked; cannot unlock."]))
  ∧ (snd (unlock 0 alice_seat1)
     = Response 200 (Message [Lit "Seat "; NumF 0; Lit " lock cleared."])
     ∧ freed 0 (fst (unlock 0 alice_seat1))
     ∧ no_pending 0 (fst (unlock 0 alice_seat1))).
Proof.
  pose proof (unlock_cases undeclared 0 initial_state (initial_seat 0)
                initial_reachable eq_refl) as (Hfree & _ & _).
  pose proof (unlock_cases undeclared 0 alice_booked booked_obj
                alice_booked_reachable eq_refl) as (_ & Hbooked & _).
  pose proof (unlock_cases undeclared 0 alice_seat1 alice_seat1_lock
                alice_seat1_reachable eq_refl) as (_ & _ & Hlocked).
  split; [split; [apply alice_seat1_reachable|reflexivity]|].
  split; [apply Hfree; reflexivity|].
  split; [apply Hbooked; reflexivity|].
  apply Hlocked; reflexivity.
Defined.

(** Counterexample to C6 as stated: seat 1 exists and is not locked (alice
    locked it and [POST /unlock/0] cleared the lock), and a release of
    seat 1 is answered 404 'Seat not found', not 400 'Seat is not locked':
    the record [/unlock] left has no [id] for the lookup to find. *)
Lemma release_of_replaced_seat_is_not_found :
  reachable undeclared alice_unlocked
  ∧ (∃ x, seat_at alice_unlocked 0 = Some x ∧ status x = "available")
  ∧ snd (serve undeclared (ApiRelease 1 (Val (IStr "alice"))) 3000
           alice_unlocked)
    = api_fail 404 "Seat not found"
  ∧ snd (serve undeclared (ApiRelease 1 (Val (IStr "alice"))) 3000
           alice_unlocked)
    ≠ api_fail 400 "Seat is not locked".
Proof.
  split; [apply alice_unlocked_reachable|].
  split; [by exists available_obj|].
  split; [reflexivity|discriminate].
Qed.

(** Witness of C6: release of seat 3 while it is free, by bob while alice
    holds it, and by alice. *)
Lemma api_release_cases_witness :
  (reachable undeclared alice_api_locked
   ∧ truthy (Val (IStr "alice")) = true
   ∧ find_seat 3 alice_api_locked = Some (2%nat, alice_api_lock))
  ∧ api_release 3 (Val (IStr "alice")) initial_state
    = (initial_state, api_fail 400 "Seat is not locked")
  ∧ api_release 3 (Val (IStr "bob")) alice_api_locked
    = (alice_api_locked, api_fail 403 "Seat is locked by another user")
  ∧ ∃ s' y, api_release 3 (Val (IStr "alice")) alice_api_locked
            = (s', api_ok "Seat released successfully" y)
      ∧ seats s' !! 2%nat = Some y ∧ seat_id y = Some 3
      ∧ status y = "available" ∧ holder_set y = false
      ∧ expiry_set y = false
      ∧ no_pending (Z.of_nat 2) s'
      ∧ returned_record
          (snd (api_release 3 (Val (IStr "alice")) alice_api_locked))
        = Some y.
Proof.
  pose proof (api_release_cases undeclared 3 (Val (IStr "alice"))
                initial_state 2%nat (initial_seat 2) initial_reachable
                eq_refl eq_refl) as (Hfree & _ & _).
  pose proof (api_release_cases undeclared 3 (Val (IStr "bob"))
                alice_api_locked 2%nat alice_api_lock
                alice_api_locked_reachable eq_refl eq_refl)
    as (_ & Hother & _).
  pose proof (api_release_cases undeclared 3 (Val (IStr "alice"))
                alice_api_locked 2%nat alice_api_lock
                alice_api_locked_reachable eq_refl eq_refl)
    as (_ & _ & Hown).
  split; [split; [apply alice_api_locked_reachable|split; reflexivity]|].
  split; [apply Hfree; discriminate|].
  split; [apply Hother; [reflexivity|discriminate]|].
  apply Hown; reflexivity.
Defined.

(** Witness of C8: alice's lock of seat 0, taken at time 1000, in the view
    served at time 61001. *)
Lemma seats_view_is_normalised_witness :
  (reachable undeclared alice_seat1
   ∧ seats alice_seat1 !! 0%nat = Some alice_seat1_lock
   ∧ status alice_seat1_lock = "locked"
   ∧ past_deadline 61001 alice_seat1_lock)
  ∧ ∃ v, snd (serve undeclared SeatsReq 61001 alice_seat1)
         = Response 200 (View v)
      ∧ v !! 0%nat = Some (0%nat, "available").
Proof.
  assert (past_deadline 61001 alice_seat1_lock) as Hlate.
  { exists 1000. split; [reflexivity|]. unfold LOCK_EXPIRATION_TIME. lia. }
  split; [split_and!; [apply alice_seat1_reachable|reflexivity..|exact Hlate]|].
  destruct (seats_view_is_normalised alice_seat1 61001 alice_seat1_reachable)
    as (v & Hv & Hlocked & _).
  exists v. split; [exact Hv|].
  by apply (Hlocked 0%nat alice_seat1_lock eq_refl eq_refl).
Defined.

(** Counterexample to C9 as stated: seat 0 is locked for the identity
    'anonymous'. A confirm request with no [user] at all is not refused
    for its identity: it is answered 200 and books the seat. A lock
    request with no [user] is answered 423, as any other lock request
    for a locked seat. *)
Lemma confirm_without_identity_books :
  reachable undeclared anonymous_seat1
  ∧ code (snd (serve undeclared (Confirm 0 None) 2000 anonymous_seat1)) = 200
  ∧ seat_at (fst (serve undeclared (Confirm 0 None) 2000 anonymous_seat1)) 0
    = Some booked_obj
  ∧ code (snd (serve undeclared (Lock 0 None) 2000 anonymous_seat1)) = 423
  ∧ code (snd (serve undeclared (Lock 0 None) 2000 anonymous_seat1)) ≠ 400.
Proof.
  split; [by eexists|].
  split_and!; [reflexivity|reflexivity|reflexivity|discriminate].
Qed.

(** Witness of C9, at startup. *)
Lemma identity_and_existence_witness :
  reachable undeclared initial_state
  ∧ api_lock 3 Absent 1000 initial_state
    = (initial_state, api_fail 400 "User ID is required")
  ∧ api_release 99 (Val (IStr "")) initial_state
    = (initial_state, api_fail 400 "User ID is required")
  ∧ api_confirm 51 (Val (IStr "alice")) 1000 initial_state
    = (initial_state, api_fail 404 "Seat not found")
  ∧ api_lock 0 (Val (IStr "alice")) 1000 initial_state
    = (initial_state, api_fail 404 "Seat not found")
  ∧ lock undeclared 50 None 1000 initial_state
    = (initial_state, not_exist 50)
  ∧ unlock (-1) initial_state = (initial_state, not_exist (-1))
  ∧ confirm 0 (Some "") 1000 alice_seat1
    = confirm 0 (Some "anonymous") 1000 alice_seat1.
Proof.
  pose proof (identity_and_existence undeclared initial_state 1000
                initial_reachable) as (Hid & Hapi & Hidx & _).
  pose proof (identity_and_existence undeclared alice_seat1 1000
                alice_seat1_reachable) as (_ & _ & _ & Hanon).
  split; [apply initial_reachable|].
  split; [apply (Hid 3 Absent eq_refl)|].
  split; [apply (Hid 99 (Val (IStr "")) eq_refl)|].
  split; [apply (Hapi 51 (Val (IStr "alice")) eq_refl); lia|].
  split; [apply (Hapi 0 (Val (IStr "alice")) eq_refl); lia|].
  split; [apply (Hidx 50 None); lia|].
  split; [apply (Hidx (-1) None); lia|].
  apply (Hanon 0 (Some "")). by right.
Defined.

(** C10 fails on the code. A request without [user] is given the identity
    'anonymous', but at startup, where seat 0 is available,
    [POST /lock/0] without [user] is answered 500 (the handler throws
    where it reads [LOCK_TTL]) and stores no lock; [POST /confirm/0]
    without [user] is then answered 400, and seat 0 is still available:
    nothing is booked. *)
Theorem anonymous_lock_throws :
  (seat_at initial_state 0 = Some (initial_seat 0)
   ∧ status (initial_seat 0) = "available"
   ∧ query_user None = "anonymous")
  ∧ ∃ s1 s2,
      serve undeclared (Lock 0 None) 1000 initial_state = (s1, thrown)
      ∧ code thrown = 500
      ∧ serve undeclared (Confirm 0 None) 2000 s1
        = (s2, Response 400
                 (Message [Lit "Seat is not locked and cannot be booked"]))
      ∧ seat_at s1 0 = Some (initial_seat 0)
      ∧ seat_at s2 0 = Some (initial_seat 0)
      ∧ ∀ i x, seats s2 !! i = Some x → status x ≠ "booked".
Proof.
  split; [split_and!; reflexivity|].
  exists initial_state, initial_state.
  split_and!; [reflexivity..|].
  intros i x Hx.
  change (seats initial_state) with (initial_seat <$> seq 0 50) in Hx.
  rewrite list_lookup_fmap in Hx.
  destruct (seq 0 50 !! i) as [j|]; [|done]. by simplify_eq/=.
Qed.

(** * Further properties of the seat handlers *)

Section Seats.

Variable LOCK_TTL : option Z.

(** ** The table and its views *)

Lemma view_lookup s i :
  imap (λ j x, (j, status x)) (seats s) !! i
  = (λ x, (i, status x)) <$> seats s !! i.
Proof. apply list_lookup_imap. Qed.

Lemma seat_ok_status n i x :
  seat_ok n i x →
  status x = "available" ∨ status x = "locked" ∨ status x = "booked".
Proof. intros Hok. apply (seat_ok_record n i x Hok). Qed.

(** X1. Seats are never created and never destroyed: in every reachable
    state [seats[id]] exists exactly for the indices 0..49. *)
Theorem seats_are_0_to_49 (s : state) (id : Z) :
  reachable LOCK_TTL s → (is_Some (seat_at s id) ↔ 0 ≤ id < 50).
Proof.
  intros Hr. apply reachable_inv in Hr. unfold seat_at.
  case_bool_decide as Hid.
  - rewrite lookup_lt_is_Some, (inv_length s Hr). lia.
  - split; [by intros [? ?]|lia].
Qed.

(** X2. [GET /seats] changes nothing and, in a reachable state, answers
    200 with fifty entries: entry [i] names index [i] and the status of
    seat [i], which is 'available', 'locked' or 'booked'. *)
Theorem get_seats_view (s : state) :
  reachable LOCK_TTL s →
  ∃ v, get_seats s = (s, Response 200 (View v))
       ∧ length v = 50%nat
       ∧ ∀ i, (i < 50)%nat →
           ∃ x, seats s !! i = Some x ∧ v !! i = Some (i, status x)
                ∧ (status x = "available" ∨ status x = "locked"
                   ∨ status x = "booked").
Proof.
  intros Hr. apply reachable_inv in Hr. eexists. split; [reflexivity|].
  split; [by rewrite length_imap, (inv_length s Hr)|].
  intros i Hi.
  destruct (lookup_lt_is_Some_2 (seats s) i) as [x Hx];
    [by rewrite (inv_length s Hr)|].
  exists x. split; [done|]. split; [by rewrite view_lookup, Hx|].
  eapply seat_ok_status. by apply (inv_seats s Hr).
Qed.

(** ** Timeouts *)

(** X3. [LOCK_TTL] is declared nowhere, so the program never times a
    lock: in every state it reaches no timeout is pending, no record
    carries a [lockExpiresAt] or a timeout handle, a timeout event
    changes nothing, and every lock is one taken through
    [/api/seats/:id/lock], with its [id], a holder and a [lockedAt]. *)
Theorem no_timeout_is_ever_armed (s : state) :
  reachable undeclared s →
  timers s = ∅
  ∧ (∀ i x, seats s !! i = Some x →
       lockExpiresAt x = None ∧ timeoutId x = None)
  ∧ (∀ h now, fire h now s = s)
  ∧ (∀ i x, seats s !! i = Some x → status x = "locked" →
       seat_id x = Some (Z.of_nat i + 1)
       ∧ ∃ u t, lockedBy x = Val u ∧ lockedAt x = Val t).
Proof.
  intros Hr. pose proof (reachable_inv undeclared s Hr) as Hinv.
  apply reachable_untimed in Hr as Hu.
  split_and!.
  - apply Hu.
  - apply Hu.
  - intros h now. by apply untimed_fire.
  - intros i x Hx Hl.
    destruct (untimed_lock_is_stamped s i x Hinv Hu Hx Hl)
      as [(Hid & _ & _ & Hc) [t Ht]].
    split; [done|].
    destruct Hc as [(? & _)|[(_ & [u Hu'] & _)|(? & _)]];
      [congruence|eauto|congruence].
Qed.

(** ** The reservation record *)

Lemma seat_ok_booked_owner n i x :
  seat_ok n i x → status x = "booked" →
  (holder_set x = true ↔ is_Some (seat_id x)).
Proof.
  intros [(Hid & _ & _ & Hc)|[->|[->|(u & e & h & -> & _)]]] Hb;
    try discriminate Hb.
  - unfold holder_set.
    destruct Hc as [(Hs & _)|[(Hs & _)|(_ & -> & _ & [u ->])]];
      [congruence..|].
    rewrite Hid. split; eauto.
  - split; [discriminate|]. intros [? ?]. discriminate.
Qed.

(** X4. In every reachable state each seat has one of the three statuses;
    an available seat has no holder, a locked seat has one, a lock stamp
    ([lockExpiresAt] or [lockedAt]) is set exactly on locked seats, and a
    booked seat names its owner exactly when its record still has its
    [id], that is when it was booked through [/api/seats/:id/confirm]. *)
Theorem reachable_record_shape (s : state) (i : nat) (x : seat) :
  reachable LOCK_TTL s → seats s !! i = Some x →
  (status x = "available" ∨ status x = "locked" ∨ status x = "booked")
  ∧ (status x = "available" → holder_set x = false)
  ∧ (status x = "locked" → holder_set x = true)
  ∧ (expiry_set x = true ↔ status x = "locked")
  ∧ (status x = "booked" → (holder_set x = true ↔ is_Some (seat_id x))).
Proof.
  intros Hr Hx. apply reachable_inv in Hr.
  pose proof (inv_seats s Hr i x Hx) as Hok.
  destruct (seat_ok_record _ _ _ Hok) as (? & ? & ? & ?).
  split_and!; [done..|]. by eapply seat_ok_booked_owner.
Qed.

(** ** The middleware *)

Lemma clean_seat_idemp now x :
  clean_seat now (clean_seat now x) = clean_seat now x.
Proof.
  unfold clean_seat.
  destruct (bool_decide (status x = "locked") && lock_is_stale now x)
    eqn:Hc.
  - done.
  - by rewrite Hc.
Qed.

(** X5. [cleanExpiredLocks] is idempotent: running it twice at the same
    time is running it once; and it never touches the pending timeouts. *)
Theorem cleanExpiredLocks_idempotent (now : Z) (s : state) :
  cleanExpiredLocks now (cleanExpiredLocks now s) = cleanExpiredLocks now s
  ∧ timers (cleanExpiredLocks now s) = timers s.
Proof.
  split; [|done]. unfold cleanExpiredLocks. simpl. f_equal.
  rewrite <- list_fmap_compose. apply list_fmap_ext.
  intros i x _. apply clean_seat_idemp.
Qed.

(** X6. What the middleware does to a locked seat of a reachable state:
    a lock taken through [/lock] (it has a [lockExpiresAt]) is never
    cleared, however old; a lock stamped [lockedAt = t] is kept up to and
    including [now = t + 60000] and, later than that, is cleared in place:
    available, [lockedBy] and [lockedAt] null, [id] kept. *)
Theorem middleware_on_locks (now : Z) (s : state) (i : nat) (x : seat) :
  reachable LOCK_TTL s → seats s !! i = Some x → status x = "locked" →
  (is_Some (lockExpiresAt x) →
   seats (cleanExpiredLocks now s) !! i = Some x)
  ∧ (∀ t, lockedAt x = Val t → now ≤ t + 60000 →
     seats (cleanExpiredLocks now s) !! i = Some x)
  ∧ (∀ t, lockedAt x = Val t → t + 60000 < now →
     ∃ y, seats (cleanExpiredLocks now s) !! i = Some y
          ∧ status y = "available" ∧ lockedBy y = Null ∧ lockedAt y = Null
          ∧ seat_id y = seat_id x ∧ holder_set y = false).
Proof.
  intros Hr Hx Hl. apply reachable_inv in Hr.
  pose proof (inv_seats s Hr i x Hx) as Hok.
  unfold cleanExpiredLocks. simpl. rewrite list_lookup_fmap, Hx. simpl.
  unfold clean_seat, lock_is_stale, LOCK_EXPIRATION_TIME.
  rewrite (bool_decide_eq_true_2 _ Hl). simpl. split_and!.
  - intros [e He].
    destruct Hok as [(_ & Hn & _)|[->|[->|(u & e' & h & -> & _)]]];
      [congruence|done..].
  - intros t -> Hle.
    destruct (60 * 1000 <? now - t) eqn:Hc; [|done].
    apply Z.ltb_lt in Hc. lia.
  - intros t Ht Hlt. rewrite Ht.
    rewrite (proj2 (Z.ltb_lt _ _)) by lia.
    eexists. split; [reflexivity|]. simpl. split_and!; [done..|].
    unfold holder_set. simpl.
    destruct Hok as [(_ & _ & _ & Hc)|[->|[->|(u & e' & h & -> & _)]]];
      [|done..].
    destruct Hc as [(_ & _ & _ & ->)|[(_ & _ & _ & ->)|(? & _)]];
      [done..|congruence].
Qed.

(** ** [/api/seats/:id/lock] and [/api/seats/:id/confirm] *)

Lemma api_lock_grants seatId userId now s i x :
  truthy userId = true → find_seat seatId s = Some (i, x) →
  status x = "available" →
  api_lock seatId userId now s
  = (put_seat i (set_lockedAt (Val now)
                   (set_lockedBy userId (set_status "locked" x))) s,
     api_ok "Seat locked successfully"
       (set_lockedAt (Val now)
          (set_lockedBy userId (set_status "locked" x)))).
Proof.
  intros Hu Hf Ha. unfold api_lock. rewrite Hu, Hf. simpl.
  by rewrite (bool_decide_eq_true_2 _ Ha).
Qed.

Lemma api_lock_refuses seatId userId now s i x :
  truthy userId = true → find_seat seatId s = Some (i, x) →
  status x ≠ "available" →
  api_lock seatId userId now s
  = (s, Response 400
          (ApiResult false
             [Lit "Seat is "; Lit (status x);
              Lit ". Cannot lock at this time."] None)).
Proof.
  intros Hu Hf Ha. unfold api_lock. rewrite Hu, Hf. simpl.
  by rewrite (bool_decide_eq_false_2 _ Ha).
Qed.

(** X7. [POST /api/seats/:id/lock] with a caller identity, on a seat its
    lookup finds: an available seat becomes locked in place, with
    [lockedBy] the caller and [lockedAt] the current time, and the answer
    200 carries that record; a seat that is locked or booked is refused
    with 400, the message naming its status, and nothing changes (a lock
    that [lockedAt] dates more than a minute back is not re-examined by
    the handler). *)
Theorem api_lock_cases (seatId : Z) (userId : field ident) (now : Z)
    (s : state) (i : nat) (x : seat) :
  truthy userId = true → find_seat seatId s = Some (i, x) →
  (status x = "available" →
   ∃ s' y, api_lock seatId userId now s
           = (s', api_ok "Seat locked successfully" y)
     ∧ seats s' !! i = Some y ∧ status y = "locked"
     ∧ lockedBy y = userId ∧ lockedAt y = Val now
     ∧ seat_id y = Some seatId ∧ bookedBy y = bookedBy x
     ∧ timers s' = timers s)
  ∧ (status x ≠ "available" →
     api_lock seatId userId now s
     = (s, Response 400
             (ApiResult false
                [Lit "Seat is "; Lit (status x);
                 Lit ". Cannot lock at this time."] None))).
Proof.
  intros Hu Hf. pose proof (find_seat_Some s seatId i x Hf) as [Hx Hid].
  split.
  - intros Ha. rewrite (api_lock_grants seatId userId now s i x Hu Hf Ha).
    eexists _, _. split; [reflexivity|]. simpl. split_and!; try done.
    apply list_lookup_insert_eq. by eapply lookup_lt_Some.
  - intros Ha. by apply (api_lock_refuses seatId userId now s i x).
Qed.

(** X8. [POST /api/seats/:id/confirm] with a caller identity, on a seat
    its lookup finds, checks in this order: a seat that is not locked is
    refused with 400; a lock of another holder is refused with 403, be it
    expired or not; the caller's own lock is cleared in place and refused
    with 400 when [lockedAt] dates more than 60000 ms back, and otherwise
    (up to and including 60000 ms) the seat is booked in place with
    [bookedBy] the caller and the lock fields null. Refusals other than
    the expired one change nothing. *)
Theorem api_confirm_cases (seatId : Z) (userId : field ident) (now : Z)
    (s : state) (i : nat) (x : seat) :
  truthy userId = true → find_seat seatId s = Some (i, x) →
  (status x ≠ "locked" →
   api_confirm seatId userId now s
   = (s, api_fail 400 "Seat must be locked before confirming"))
  ∧ (status x = "locked" → lockedBy x ≠ userId →
     api_confirm seatId userId now s
     = (s, api_fail 403 "Seat is locked by another user"))
  ∧ (status x = "locked" → lockedBy x = userId →
     ∀ t, lockedAt x = Val t → t + 60000 < now →
     ∃ s' y, api_confirm seatId userId now s
             = (s', api_fail 400
                      "Lock has expired. Please lock the seat again")
       ∧ seats s' !! i = Some y ∧ status y = "available"
       ∧ lockedBy y = Null ∧ lockedAt y = Null)
  ∧ (status x = "locked" → lockedBy x = userId →
     ∀ t, lockedAt x = Val t → now ≤ t + 60000 →
     ∃ s' y, api_confirm seatId userId now s
             = (s', api_ok "Booking confirmed successfully" y)
       ∧ seats s' !! i = Some y ∧ status y = "booked"
       ∧ bookedBy y = userId ∧ lockedBy y = Null ∧ lockedAt y = Null
       ∧ seat_id y = Some seatId).
Proof.
  intros Hu Hf. pose proof (find_seat_Some s seatId i x Hf) as [Hx Hid].
  assert (∀ v, <[i := v]> (seats s) !! i = Some v) as Hins.
  { intros v. apply list_lookup_insert_eq. by eapply lookup_lt_Some. }
  unfold api_confirm. rewrite Hu, Hf. simpl. split_and!.
  - intros Hl. by rewrite (bool_decide_eq_false_2 _ Hl).
  - intros Hl Hb. rewrite (bool_decide_eq_true_2 _ Hl). simpl.
    by rewrite (bool_decide_eq_false_2 _ Hb).
  - intros Hl Hb t Ht Hlt. rewrite (bool_decide_eq_true_2 _ Hl). simpl.
    rewrite (bool_decide_eq_true_2 _ Hb). simpl.
    unfold lock_is_stale, LOCK_EXPIRATION_TIME. rewrite Ht.
    rewrite (proj2 (Z.ltb_lt _ _)) by lia.
    eexists _, _. split; [reflexivity|]. simpl. by split_and!.
  - intros Hl Hb t Ht Hle. rewrite (bool_decide_eq_true_2 _ Hl). simpl.
    rewrite (bool_decide_eq_true_2 _ Hb). simpl.
    unfold lock_is_stale, LOCK_EXPIRATION_TIME. rewrite Ht.
    rewrite (proj2 (Z.ltb_ge _ _)) by lia.
    eexists _, _. split; [reflexivity|]. simpl. by split_and!.
Qed.

(** ** Booked seats stay booked *)

Lemma insert_keeps_other (l : list seat) i j x y v :
  l !! i = Some x → l !! j = Some y → x ≠ y → <[j := v]> l !! i = Some x.
Proof.
  intros Hx Hy Hne. rewrite list_lookup_insert_ne; [done|].
  intros ->. congruence.
Qed.

Lemma booked_kept_put s i x j y v :
  seats s !! i = Some x → status x = "booked" →
  seats s !! j = Some y → status y ≠ "booked" →
  seats (put_seat j v s) !! i = Some x.
Proof.
  intros Hx Hb Hy Hn. simpl. eapply insert_keeps_other; [done..|].
  intros ->. done.
Qed.

Lemma booked_kept_replace s i x id y v :
  seats s !! i = Some x → status x = "booked" →
  seat_at s id = Some y → status y ≠ "booked" →
  seats (set_seat id v (clearSeatTimer id s)) !! i = Some x.
Proof.
  intros Hx Hb Hy Hn. rewrite (replace_after_clear s id v y Hy). simpl.
  apply seat_at_Some in Hy as [_ Hy].
  eapply insert_keeps_other; [done..|]. intros ->. done.
Qed.

Lemma booked_kept_clean now s i x :
  seats s !! i = Some x → status x = "booked" →
  seats (cleanExpiredLocks now s) !! i = Some x.
Proof.
  intros Hx Hb. simpl. rewrite list_lookup_fmap, Hx. simpl. f_equal.
  unfold clean_seat. rewrite bool_decide_eq_false_2; [done|].
  rewrite Hb. discriminate.
Qed.

Lemma booked_kept_api_lock seatId userId now s i x :
  seats s !! i = Some x → status x = "booked" →
  seats (fst (api_lock seatId userId now s)) !! i = Some x.
Proof.
  intros Hx Hb. unfold api_lock.
  destruct (truthy userId); simpl; [|done].
  destruct (find_seat seatId s) as [[j y]|] eqn:Hf; [|done].
  apply find_seat_Some in Hf as [Hy _].
  case_bool_decide as Hs; simpl; [|done].
  eapply booked_kept_put; [done..|]. rewrite Hs. discriminate.
Qed.

Lemma booked_kept_api_confirm seatId userId now s i x :
  seats s !! i = Some x → status x = "booked" →
  seats (fst (api_confirm seatId userId now s)) !! i = Some x.
Proof.
  intros Hx Hb. unfold api_confirm.
  destruct (truthy userId); simpl; [|done].
  destruct (find_seat seatId s) as [[j y]|] eqn:Hf; [|done].
  apply find_seat_Some in Hf as [Hy _].
  case_bool_decide as Hs; simpl; [|done].
  case_bool_decide; simpl; [|done].
  destruct (lock_is_stale now y); simpl;
    (eapply booked_kept_put; [done..|]; rewrite Hs; discriminate).
Qed.

Lemma booked_kept_api_release seatId userId s i x :
  seats s !! i = Some x → status x = "booked" →
  seats (fst (api_release seatId userId s)) !! i = Some x.
Proof.
  intros Hx Hb. unfold api_release.
  destruct (truthy userId); simpl; [|done].
  destruct (find_seat seatId s) as [[j y]|] eqn:Hf; [|done].
  apply find_seat_Some in Hf as [Hy _].
  case_bool_decide as Hs; simpl; [|done].
  case_bool_decide; simpl; [|done].
  eapply booked_kept_put; [done..|]. rewrite Hs. discriminate.
Qed.

Lemma booked_kept_lock id user now s i x :
  seats s !! i = Some x → status x = "booked" →
  seats (fst (lock LOCK_TTL id user now s)) !! i = Some x.
Proof.
  intros Hx Hb.
  destruct (seat_at s id) as [y|] eqn:Hy;
    [|by unfold lock; rewrite Hy].
  destruct (decide (status y = "booked")) as [Hyb|Hyb].
  { by rewrite (lock_refuses_booked LOCK_TTL id user now s y). }
  pose proof Hy as Hy'. apply seat_at_Some in Hy' as [_ Hyi].
  destruct (decide (status y = "locked")) as [Hyl|Hyl].
  - destruct (lock_expired now y) eqn:He.
    + destruct LOCK_TTL as [ttl|].
      * rewrite (lock_regrants ttl id user now s y Hy Hyl He). simpl.
        eapply insert_keeps_other; [done..|]. intros ->. done.
      * change (@None Z) with undeclared.
        rewrite (lock_rethrows id user now s y Hy Hyl He). simpl.
        eapply booked_kept_replace; [done..|]. rewrite Hyl. discriminate.
    + by rewrite (lock_refuses_locked LOCK_TTL id user now s y).
  - destruct LOCK_TTL as [ttl|].
    + rewrite (lock_grants ttl id user now s y Hy Hyl Hyb). simpl.
      eapply insert_keeps_other; [done..|]. intros ->. done.
    + change (@None Z) with undeclared.
      by rewrite (lock_throws id user now s y Hy Hyl Hyb).
Qed.

Lemma booked_kept_confirm id user now s i x :
  seats s !! i = Some x → status x = "booked" →
  seats (fst (confirm id user now s)) !! i = Some x.
Proof.
  intros Hx Hb. unfold confirm.
  destruct (seat_at s id) as [y|] eqn:Hy; [|done].
  case_bool_decide as Hs; simpl; [|done].
  destruct (lock_expired now y); simpl.
  - eapply booked_kept_replace; [done..|]. rewrite Hs. discriminate.
  - case_bool_decide; simpl; [|done].
    eapply booked_kept_replace; [done..|]. rewrite Hs. discriminate.
Qed.

Lemma booked_kept_unlock id s i x :
  seats s !! i = Some x → status x = "booked" →
  seats (fst (unlock id s)) !! i = Some x.
Proof.
  intros Hx Hb. unfold unlock.
  destruct (seat_at s id) as [y|] eqn:Hy; [|done].
  case_bool_decide; [done|]. case_bool_decide; [done|]. simpl.
  by eapply booked_kept_replace.
Qed.

Lemma booked_kept_fire h now s i x :
  seats s !! i = Some x → status x = "booked" →
  seats (fire h now s) !! i = Some x.
Proof.
  intros Hx Hb. unfold fire.
  destruct (timers s !! h) as [t|]; [|done].
  destruct (due t <=? now); [|done].
  unfold expiry_callback.
  destruct (seat_at _ (seatId t)) as [y|] eqn:Hy; [|done].
  destruct (bool_decide (status y = "locked") && lock_expired now y)
    eqn:Hc; [|done].
  apply andb_true_iff in Hc as [Hl _]. apply bool_decide_eq_true in Hl.
  apply seat_at_Some in Hy as [_ Hy]. simpl in *.
  eapply insert_keeps_other; [done..|]. intros ->. congruence.
Qed.

Lemma booked_kept_step now e s i x :
  seats s !! i = Some x → status x = "booked" →
  seats (fst (step LOCK_TTL now e s)) !! i = Some x.
Proof.
  intros Hx Hb. destruct e as [r|h]; simpl; [|by apply booked_kept_fire].
  pose proof (booked_kept_clean now s i x Hx Hb) as Hc.
  assert (seats (fst (serve LOCK_TTL r now s)) !! i = Some x) as H.
  { unfold serve. destruct r; simpl; rewrite ?api_seats_state;
      auto using booked_kept_api_lock, booked_kept_api_confirm,
                 booked_kept_api_release, booked_kept_lock,
                 booked_kept_confirm, booked_kept_unlock. }
  by destruct (serve LOCK_TTL r now s).
Qed.

(** X9. Booking is final: a record that is booked stays in the table,
    at its index and unchanged, through every request of either family,
    every run of the middleware and every timeout. *)
Theorem booked_is_final (trace : list (Z * event)) (s : state) (i : nat)
    (x : seat) :
  seats s !! i = Some x → status x = "booked" →
  seats (run LOCK_TTL trace s) !! i = Some x.
Proof.
  revert s. induction trace as [|[now e] rest IH]; intros s Hx Hb; simpl.
  - done.
  - apply IH; [|done]. by apply booked_kept_step.
Qed.

(** ** Requests in sequence *)

Lemma clean_seat_id now x : seat_id (clean_seat now x) = seat_id x.
Proof. unfold clean_seat. by destruct (_ && _). Qed.

Lemma clean_seat_keeps now x :
  status x ≠ "locked" ∨ lock_is_stale now x = false → clean_seat now x = x.
Proof.
  intros [Hs|Hl]; unfold clean_seat.
  - by rewrite (bool_decide_eq_false_2 _ Hs).
  - by rewrite Hl, andb_false_r.
Qed.

Lemma clean_seat_frees now x :
  status x = "locked" → lock_is_stale now x = true →
  clean_seat now x
  = set_lockedAt Null (set_lockedBy Null (set_status "available" x)).
Proof.
  intros Hs Hl. unfold clean_seat.
  by rewrite (bool_decide_eq_true_2 _ Hs), Hl.
Qed.

Lemma lock_is_stale_iff now x t :
  lockedAt x = Val t →
  lock_is_stale now x = true ↔ t + LOCK_EXPIRATION_TIME < now.
Proof.
  intros Ht. unfold lock_is_stale. rewrite Ht. rewrite Z.ltb_lt. lia.
Qed.

Lemma past_deadline_stale now x :
  past_deadline now x → lock_is_stale now x = true.
Proof. intros (t & Ht & ?). by apply (lock_is_stale_iff now x t Ht). Qed.

Lemma not_past_deadline_live now x t :
  lockedAt x = Val t → ¬ past_deadline now x → lock_is_stale now x = false.
Proof.
  intros Ht Hn. apply not_true_is_false. intros Hs.
  apply (lock_is_stale_iff now x t Ht) in Hs. apply Hn. by exists t.
Qed.

(** X10. [POST /lock/:id] of the program as it stands never grants a
    lock. In every state the program reaches the request leaves the table
    as the middleware left it and is never answered 200: on a seat that is
    available, or whose lock is past its deadline (the middleware has just
    freed it), the handler throws where it reads [LOCK_TTL] and the
    answer is 500; on a lock that is not past its deadline the answer is
    423; on a booked seat it is 409. *)
Theorem lock_never_grants (s : state) (id : Z) (user : option string)
    (now : Z) :
  reachable undeclared s →
  fst (serve undeclared (Lock id user) now s) = cleanExpiredLocks now s
  ∧ code (snd (serve undeclared (Lock id user) now s)) ≠ 200
  ∧ (∀ x, seat_at s id = Some x →
       status x = "available" ∨ (status x = "locked" ∧ past_deadline now x) →
       snd (serve undeclared (Lock id user) now s) = thrown)
  ∧ (∀ x, seat_at s id = Some x →
       status x = "locked" → ¬ past_deadline now x →
       code (snd (serve undeclared (Lock id user) now s)) = 423)
  ∧ (∀ x, seat_at s id = Some x → status x = "booked" →
       code (snd (serve undeclared (Lock id user) now s)) = 409).
Proof.
  intros Hr. pose proof (reachable_inv undeclared s Hr) as Hinv.
  apply reachable_untimed in Hr as Hu.
  pose proof (untimed_clean now s Hu) as Hc.
  unfold serve. simpl.
  destruct (lock_untimed id user now _ Hc) as [Hst Hcode].
  split; [done|]. split; [lia|]. split_and!.
  - intros x Hx Hcase.
    assert (∃ y, seat_at (cleanExpiredLocks now s) id = Some y
                 ∧ status y = "available") as (y & Hy & Ha).
    { rewrite seat_at_clean, Hx. simpl. destruct Hcase as [Ha|[Hl Hlate]].
      - exists x. split; [|done]. f_equal. apply clean_seat_keeps.
        left. rewrite Ha. discriminate.
      - eexists. split; [reflexivity|].
        by rewrite (clean_seat_frees now x Hl (past_deadline_stale _ _ Hlate)). }
    apply (f_equal snd (lock_throws id user now _ y Hy
             ltac:(rewrite Ha; discriminate) ltac:(rewrite Ha; discriminate))).
  - intros x Hx Hl Hlive.
    pose proof Hx as Hx'. apply seat_at_Some in Hx' as [_ Hxi].
    destruct (untimed_lock_is_stamped s _ x Hinv Hu Hxi Hl) as [_ [t Ht]].
    assert (seat_at (cleanExpiredLocks now s) id = Some x) as Hy.
    { rewrite seat_at_clean, Hx. simpl. f_equal. apply clean_seat_keeps.
      right. by eapply not_past_deadline_live. }
    by rewrite (lock_refuses_locked undeclared id user now _ x Hy Hl
                  (untimed_live now _ id x Hc Hy)).
  - intros x Hx Hb.
    assert (seat_at (cleanExpiredLocks now s) id = Some x) as Hy.
    { rewrite seat_at_clean, Hx. simpl. f_equal. apply clean_seat_keeps.
      left. rewrite Hb. discriminate. }
    by rewrite (lock_refuses_booked undeclared id user now _ x Hy Hb).
Qed.

Lemma find_seat_clean now seatId s i x :
  find_seat seatId s = Some (i, x) →
  find_seat seatId (cleanExpiredLocks now s) = Some (i, clean_seat now x).
Proof.
  unfold find_seat. intros (Hx & Hid & Hfirst)%list_find_Some.
  apply list_find_Some. simpl. split_and!.
  - by rewrite list_lookup_fmap, Hx.
  - by rewrite clean_seat_id.
  - intros j y Hy Hlt. rewrite list_lookup_fmap in Hy.
    destruct (seats s !! j) as [z|] eqn:Hz; [|done]. simplify_eq/=.
    rewrite clean_seat_id. by eapply Hfirst.
Qed.

Lemma find_seat_put seatId s i x x' :
  find_seat seatId s = Some (i, x) → seat_id x' = Some seatId →
  find_seat seatId (put_seat i x' s) = Some (i, x').
Proof.
  unfold find_seat. intros Hf Hid. apply list_find_Some in Hf.
  destruct Hf as (Hx & _ & Hfirst). apply list_find_Some. simpl.
  split_and!; [|done|].
  - apply list_lookup_insert_eq. by eapply lookup_lt_Some.
  - intros j y Hy Hlt. rewrite list_lookup_insert_ne in Hy by lia.
    by eapply Hfirst.
Qed.

(** X11. First come, first served, for a minute. When
    [POST /api/seats/:id/lock] on an available seat at time [t1] is
    followed by a second lock request for that seat at time [t2], both
    through the middleware, the first is answered 200; the second is
    answered 400 and the first caller's lock stays as it is while [t2] is
    at most 60000 ms after [t1]; later than that the middleware has freed
    the seat, and the second request is answered 200 and holds the seat
    from [t2]. *)
Theorem second_api_lock (seatId : Z) (u1 u2 : field ident) (t1 t2 : Z)
    (s : state) (i : nat) (x : seat) :
  truthy u1 = true → truthy u2 = true →
  find_seat seatId s = Some (i, x) → status x = "available" →
  ∃ s1 r1 y1,
    serve LOCK_TTL (ApiLock seatId u1) t1 s = (s1, r1) ∧ code r1 = 200
    ∧ seats s1 !! i = Some y1 ∧ status y1 = "locked"
    ∧ lockedBy y1 = u1 ∧ lockedAt y1 = Val t1
    ∧ (t2 ≤ t1 + 60000 →
       code (snd (serve LOCK_TTL (ApiLock seatId u2) t2 s1)) = 400
       ∧ seats (fst (serve LOCK_TTL (ApiLock seatId u2) t2 s1)) !! i
         = Some y1)
    ∧ (t1 + 60000 < t2 →
       code (snd (serve LOCK_TTL (ApiLock seatId u2) t2 s1)) = 200
       ∧ ∃ y2, seats (fst (serve LOCK_TTL (ApiLock seatId u2) t2 s1)) !! i
               = Some y2
           ∧ status y2 = "locked" ∧ lockedBy y2 = u2
           ∧ lockedAt y2 = Val t2).
Proof.
  intros Hu1 Hu2 Hf Ha. unfold serve. simpl.
  pose proof (find_seat_clean t1 seatId s i x Hf) as Hf1.
  rewrite (clean_seat_keeps t1 x) in Hf1 by (left; rewrite Ha; discriminate).
  rewrite (api_lock_grants seatId u1 t1 _ i x Hu1 Hf1 Ha).
  set (y1 := set_lockedAt (Val t1)
               (set_lockedBy u1 (set_status "locked" x))).
  set (s1 := put_seat i y1 (cleanExpiredLocks t1 s)).
  pose proof (find_seat_Some _ seatId i x Hf) as [Hx Hid].
  assert (find_seat seatId s1 = Some (i, y1)) as Hfy.
  { by apply (find_seat_put seatId _ i x y1 Hf1). }
  pose proof (find_seat_clean t2 seatId s1 i y1 Hfy) as Hf2.
  exists s1, (api_ok "Seat locked successfully" y1), y1.
  split; [done|]. split; [done|].
  split; [by apply (find_seat_Some s1 seatId i y1 Hfy)|].
  split_and!; [done..| |].
  - intros Hlive.
    rewrite (clean_seat_keeps t2 y1) in Hf2.
    2:{ right. apply not_true_is_false. intros Hst.
        apply (lock_is_stale_iff t2 y1 t1 eq_refl) in Hst.
        unfold LOCK_EXPIRATION_TIME in Hst. lia. }
    rewrite (api_lock_refuses seatId u2 t2 _ i y1 Hu2 Hf2) by done.
    simpl. split; [done|]. by apply (find_seat_Some _ seatId i y1 Hf2).
  - intros Hlate.
    rewrite (clean_seat_frees t2 y1 eq_refl) in Hf2.
    2:{ apply (lock_is_stale_iff t2 y1 t1 eq_refl).
        unfold LOCK_EXPIRATION_TIME. lia. }
    rewrite (api_lock_grants seatId u2 t2 _ i _ Hu2 Hf2 eq_refl).
    simpl. split; [done|].
    apply (find_seat_Some s1 seatId i y1) in Hfy as [Hy _].
    eexists. split.
    { apply list_lookup_insert_eq. rewrite length_fmap.
      by eapply lookup_lt_Some. }
    done.
Qed.


(** ** The two families on one table *)

(** Only the record at index [i] can carry the id [i + 1]. *)
Lemma find_seat_needs_id s i x :
  inv s → seats s !! i = Some x → seat_id x = None →
  find_seat (Z.of_nat i + 1) s = None.
Proof.
  intros Hinv Hx Hno. unfold find_seat. apply list_find_None.
  apply Forall_forall. intros y Hin Hid.
  apply list_elem_of_lookup in Hin as [j Hy].
  pose proof (inv_seats s Hinv j y Hy) as Hok.
  destruct (seat_ok_id_api _ _ _ _ Hok Hid) as (Hid' & _).
  rewrite Hid in Hid'. assert (j = i) as -> by (simplify_eq; lia).
  congruence.
Qed.

(** X12. The handlers of [/lock], [/confirm] and [/unlock] replace a
    record by one without [id]. In a reachable state, once the record at
    index [i] has no [id], every [/api/seats] operation on seat [i + 1]
    (lock, confirm, release, with any caller identity) answers 404 'Seat
    not found', whatever the seat's status. *)
Theorem replaced_seat_is_lost_to_api (s : state) (i : nat) (x : seat)
    (userId : field ident) (now : Z) :
  reachable LOCK_TTL s → seats s !! i = Some x → seat_id x = None →
  truthy userId = true →
  snd (serve LOCK_TTL (ApiLock (Z.of_nat i + 1) userId) now s)
  = api_fail 404 "Seat not found"
  ∧ snd (serve LOCK_TTL (ApiConfirm (Z.of_nat i + 1) userId) now s)
    = api_fail 404 "Seat not found"
  ∧ snd (serve LOCK_TTL (ApiRelease (Z.of_nat i + 1) userId) now s)
    = api_fail 404 "Seat not found".
Proof.
  intros Hr Hx Hno Hu. apply reachable_inv in Hr.
  pose proof (inv_clean now s Hr) as Hc.
  assert (find_seat (Z.of_nat i + 1) (cleanExpiredLocks now s) = None)
    as Hf.
  { apply (find_seat_needs_id _ i (clean_seat now x) Hc).
    - simpl. by rewrite list_lookup_fmap, Hx.
    - by rewrite clean_seat_id. }
  unfold serve. simpl. unfold api_lock, api_confirm, api_release.
  by rewrite Hu, Hf.
Qed.

(** X13. Lock and release undo each other: in a reachable state, for a
    caller identity and an available seat that the lookup finds,
    [/api/seats/:id/lock] followed by [/api/seats/:id/release] by the same
    caller answers 200 twice and leaves the whole server state exactly as
    it was before the lock. *)
Theorem api_lock_then_release (seatId : Z) (userId : field ident)
    (now : Z) (s : state) (i : nat) (x : seat) :
  reachable LOCK_TTL s → truthy userId = true →
  find_seat seatId s = Some (i, x) → status x = "available" →
  ∃ s1 r1 r2,
    api_lock seatId userId now s = (s1, r1)
    ∧ api_release seatId userId s1 = (s, r2)
    ∧ code r1 = 200 ∧ code r2 = 200
    ∧ returned_record r2 = Some x.
Proof.
  intros Hr Hu Hf Ha. apply reachable_inv in Hr.
  pose proof (find_seat_Some s seatId i x Hf) as [Hx Hid].
  pose proof (api_shaped_found s seatId i x Hr Hf) as (_ & _ & _ & Hc).
  destruct Hc as [(_ & Hby & Hat & _)|[(Hs & _)|(Hs & _)]];
    [|congruence..].
  rewrite (api_lock_grants seatId userId now s i x Hu Hf Ha).
  set (x1 := set_lockedAt (Val now)
               (set_lockedBy userId (set_status "locked" x))).
  assert (find_seat seatId (put_seat i x1 s) = Some (i, x1)) as Hf1.
  { by apply (find_seat_put seatId s i x x1). }
  assert (set_lockedAt Null (set_lockedBy Null (set_status "available" x1))
          = x) as Hback.
  { destruct x. simpl in *. by subst. }
  eexists (put_seat i x1 s), _, _. split; [reflexivity|].
  rewrite (api_release_frees seatId userId _ i x1 Hu Hf1 eq_refl eq_refl).
  rewrite Hback.
  assert (put_seat i x (put_seat i x1 s) = s) as ->.
  { unfold put_seat. simpl. rewrite list_insert_insert_eq.
    rewrite (list_insert_id _ _ _ Hx). by destruct s. }
  split; [reflexivity|]. done.
Qed.

(** X14. [/unlock] clears a lock of the other family, and takes the seat
    out of its reach: in a reachable state, for a caller identity and an
    available seat that the lookup finds at index [i],
    [/api/seats/:id/lock] is answered 200 and [/unlock] of index [i] is
    then answered 200 'lock cleared', whoever asks; the record at [i] is
    then the bare [{ status: 'available' }], every other seat and the
    pending timeouts are as before the lock, and no record carries the
    seat's [id] any more. *)
Theorem api_lock_then_unlock (seatId : Z) (userId : field ident) (now : Z)
    (s : state) (i : nat) (x : seat) :
  reachable LOCK_TTL s → truthy userId = true →
  find_seat seatId s = Some (i, x) → status x = "available" →
  ∃ s1 r1 s2,
    api_lock seatId userId now s = (s1, r1) ∧ code r1 = 200
    ∧ unlock (Z.of_nat i) s1
      = (s2, Response 200
               (Message [Lit "Seat "; NumF (Z.of_nat i);
                         Lit " lock cleared."]))
    ∧ seats s2 = <[i := available_obj]> (seats s)
    ∧ timers s2 = timers s
    ∧ find_seat seatId s2 = None.
Proof.
  intros Hr Hu Hf Ha. apply reachable_inv in Hr.
  pose proof (find_seat_Some s seatId i x Hf) as [Hx Hid].
  pose proof (api_shaped_found s seatId i x Hr Hf) as (Hid' & _ & Hno & _).
  pose proof (inv_api_lock seatId userId now s Hr) as Hinv1.
  rewrite (api_lock_grants seatId userId now s i x Hu Hf Ha) in *.
  set (y := set_lockedAt (Val now)
              (set_lockedBy userId (set_status "locked" x))) in *.
  set (s1 := put_seat i y s) in *. simpl in Hinv1.
  assert (seat_at s1 (Z.of_nat i) = Some y) as Hy.
  { rewrite seat_at_of_nat. subst s1. simpl.
    apply list_lookup_insert_eq. by eapply lookup_lt_Some. }
  pose proof (inv_unlock (Z.of_nat i) s1 Hinv1) as Hinv2.
  rewrite (unlock_locked (Z.of_nat i) s1 y Hy eq_refl) in *.
  rewrite (replace_after_clear s1 (Z.of_nat i) available_obj y Hy) in *.
  assert (timeoutId y = None) as Hnoy by done.
  rewrite Hnoy in *. rewrite Nat2Z.id in *. simpl in Hinv2.
  rewrite list_insert_insert_eq in Hinv2.
  eexists s1, _, _. split; [reflexivity|]. split; [done|].
  rewrite (unlock_locked (Z.of_nat i) s1 y Hy eq_refl).
  rewrite (replace_after_clear s1 (Z.of_nat i) available_obj y Hy).
  rewrite Hnoy, Nat2Z.id.
  split; [reflexivity|]. simpl. rewrite list_insert_insert_eq.
  split; [done|]. split; [done|].
  assert (seatId = Z.of_nat i + 1) as -> by congruence.
  apply (find_seat_needs_id _ i available_obj Hinv2); [|done].
  simpl. apply list_lookup_insert_eq. by eapply lookup_lt_Some.
Qed.

End Seats.

(** ** Concrete instances *)

(** Witness of X1: index 49 exists once alice has booked seat 0. *)
Lemma seats_are_0_to_49_witness :
  reachable undeclared alice_booked
  ∧ (is_Some (seat_at alice_booked 49) ↔ 0 ≤ 49 < 50).
Proof.
  split; [apply alice_booked_reachable|].
  apply (seats_are_0_to_49 undeclared alice_booked 49 alice_booked_reachable).
Defined.

(** Witness of X2: the view while alice holds seat 0. *)
Lemma get_seats_view_witness :
  reachable undeclared alice_seat1
  ∧ ∃ v, get_seats alice_seat1 = (alice_seat1, Response 200 (View v))
         ∧ length v = 50%nat
         ∧ ∀ i, (i < 50)%nat →
             ∃ x, seats alice_seat1 !! i = Some x
                  ∧ v !! i = Some (i, status x)
                  ∧ (status x = "available" ∨ status x = "locked"
                     ∨ status x = "booked").
Proof.
  split; [apply alice_seat1_reachable|].
  apply (get_seats_view undeclared alice_seat1 alice_seat1_reachable).
Defined.

(** Witness of X3: the state in which alice holds seat 0. *)
Lemma no_timeout_is_ever_armed_witness :
  reachable undeclared alice_seat1
  ∧ timers alice_seat1 = ∅
  ∧ fire 0 61050 alice_seat1 = alice_seat1
  ∧ (seat_id alice_seat1_lock = Some 1
     ∧ ∃ u t, lockedBy alice_seat1_lock = Val u
              ∧ lockedAt alice_seat1_lock = Val t).
Proof.
  destruct (no_timeout_is_ever_armed alice_seat1 alice_seat1_reachable)
    as (Hnone & _ & Hfire & Hlock).
  split; [apply alice_seat1_reachable|].
  split; [exact Hnone|]. split; [apply Hfire|].
  apply (Hlock 0%nat alice_seat1_lock); reflexivity.
Defined.

(** Witness of X4: seat 0 booked through [/confirm]. *)
Lemma reachable_record_shape_witness :
  (reachable undeclared alice_booked
   ∧ seats alice_booked !! 0%nat = Some booked_obj)
  ∧ (status booked_obj = "booked" →
     (holder_set booked_obj = true ↔ is_Some (seat_id booked_obj))).
Proof.
  split; [split; [apply alice_booked_reachable|reflexivity]|].
  apply (reachable_record_shape undeclared alice_booked 0%nat booked_obj
           alice_booked_reachable eq_refl).
Defined.

(** Witness of X6: a lock with a [lockExpiresAt], and alice's lock of
    seat 3 at the minute and just after. *)
Lemma middleware_on_locks_witness :
  (reachable undeclared alice_api_locked
   ∧ seats alice_api_locked !! 2%nat = Some alice_api_lock
   ∧ status alice_api_lock = "locked")
  ∧ seats (cleanExpiredLocks 999999 alice_locked) !! 0%nat = Some alice_lock
  ∧ seats (cleanExpiredLocks 61000 alice_api_locked) !! 2%nat
    = Some alice_api_lock
  ∧ ∃ y, seats (cleanExpiredLocks 61001 alice_api_locked) !! 2%nat = Some y
         ∧ status y = "available" ∧ lockedBy y = Null ∧ lockedAt y = Null
         ∧ seat_id y = seat_id alice_api_lock ∧ holder_set y = false.
Proof.
  pose proof (middleware_on_locks (Some minute) 999999 alice_locked 0%nat
                alice_lock alice_locked_reachable eq_refl eq_refl)
    as (Htimed & _ & _).
  pose proof (middleware_on_locks undeclared 61000 alice_api_locked 2%nat
                alice_api_lock alice_api_locked_reachable eq_refl eq_refl)
    as (_ & Hkept & _).
  pose proof (middleware_on_locks undeclared 61001 alice_api_locked 2%nat
                alice_api_lock alice_api_locked_reachable eq_refl eq_refl)
    as (_ & _ & Hfreed).
  split; [split_and!; [apply alice_api_locked_reachable|done|done]|].
  split; [apply Htimed; by eexists|].
  split; [apply (Hkept 1000 eq_refl); lia|].
  apply (Hfreed 1000 eq_refl). lia.
Defined.

(** Witness of X7: seat 3 locked at startup, and refused once locked. *)
Lemma api_lock_cases_witness :
  (truthy (Val (IStr "bob")) = true
   ∧ find_seat 3 alice_api_locked = Some (2%nat, alice_api_lock))
  ∧ (∃ s' y, api_lock 3 (Val (IStr "alice")) 1000 initial_state
             = (s', api_ok "Seat locked successfully" y)
       ∧ seats s' !! 2%nat = Some y ∧ status y = "locked"
       ∧ lockedBy y = Val (IStr "alice") ∧ lockedAt y = Val 1000
       ∧ seat_id y = Some 3 ∧ bookedBy y = bookedBy (initial_seat 2)
       ∧ timers s' = timers initial_state)
  ∧ api_lock 3 (Val (IStr "bob")) 2000 alice_api_locked
    = (alice_api_locked,
       Response 400
         (ApiResult false
            [Lit "Seat is "; Lit "locked";
             Lit ". Cannot lock at this time."] None)).
Proof.
  pose proof (api_lock_cases 3 (Val (IStr "alice")) 1000 initial_state
                2%nat (initial_seat 2) eq_refl eq_refl) as (Hgrant & _).
  pose proof (api_lock_cases 3 (Val (IStr "bob")) 2000 alice_api_locked
                2%nat alice_api_lock eq_refl eq_refl) as (_ & Hrefuse).
  split; [split; reflexivity|].
  split; [apply Hgrant; reflexivity|].
  apply Hrefuse. discriminate.
Defined.

(** Witness of X8: confirm of seat 3 before it is locked, by bob, by
    alice at the minute and by alice just after it. *)
Lemma api_confirm_cases_witness :
  (truthy (Val (IStr "alice")) = true
   ∧ find_seat 3 alice_api_locked = Some (2%nat, alice_api_lock))
  ∧ api_confirm 3 (Val (IStr "alice")) 1000 initial_state
    = (initial_state, api_fail 400 "Seat must be locked before confirming")
  ∧ api_confirm 3 (Val (IStr "bob")) 99999 alice_api_locked
    = (alice_api_locked, api_fail 403 "Seat is locked by another user")
  ∧ (∃ s' y, api_confirm 3 (Val (IStr "alice")) 61001 alice_api_locked
             = (s', api_fail 400
                      "Lock has expired. Please lock the seat again")
       ∧ seats s' !! 2%nat = Some y ∧ status y = "available"
       ∧ lockedBy y = Null ∧ lockedAt y = Null)
  ∧ ∃ s' y, api_confirm 3 (Val (IStr "alice")) 61000 alice_api_locked
            = (s', api_ok "Booking confirmed successfully" y)
      ∧ seats s' !! 2%nat = Some y ∧ status y = "booked"
      ∧ bookedBy y = Val (IStr "alice") ∧ lockedBy y = Null
      ∧ lockedAt y = Null ∧ seat_id y = Some 3.
Proof.
  pose proof (api_confirm_cases 3 (Val (IStr "alice")) 1000 initial_state
                2%nat (initial_seat 2) eq_refl eq_refl) as (Hfree & _).
  pose proof (api_confirm_cases 3 (Val (IStr "bob")) 99999 alice_api_locked
                2%nat alice_api_lock eq_refl eq_refl) as (_ & Hother & _).
  pose proof (api_confirm_cases 3 (Val (IStr "alice")) 61001
                alice_api_locked 2%nat alice_api_lock eq_refl eq_refl)
    as (_ & _ & Hlate & _).
  pose proof (api_confirm_cases 3 (Val (IStr "alice")) 61000
                alice_api_locked 2%nat alice_api_lock eq_refl eq_refl)
    as (_ & _ & _ & Hintime).
  split; [split; reflexivity|].
  split; [apply Hfree; discriminate|].
  split; [apply Hother; [reflexivity|discriminate]|].
  split; [apply (Hlate eq_refl eq_refl 1000 eq_refl); lia|].
  apply (Hintime eq_refl eq_refl 1000 eq_refl). lia.
Defined.

(** Witness of X9: alice's booking of seat 0 survives an unlock, a lock
    request by bob, a timeout event and a later confirm by bob. *)
Lemma booked_is_final_witness :
  (seats alice_booked !! 0%nat = Some booked_obj
   ∧ status booked_obj = "booked")
  ∧ seats (run undeclared [(3000, Req (Unlock 0));
                           (4000, Req (Lock 0 (Some "bob")));
                           (5000, Fire 0);
                           (70000, Req (Confirm 0 (Some "bob")))]
             alice_booked)
    !! 0%nat = Some booked_obj.
Proof.
  split; [split; reflexivity|].
  apply (booked_is_final undeclared _ alice_booked 0%nat booked_obj);
    reflexivity.
Defined.

(** Witness of X10: while alice holds seat 0, a lock request for the
    free seat at index 1, for seat 0 within the minute and after it. *)
Lemma lock_never_grants_witness :
  (reachable undeclared alice_seat1
   ∧ seat_at alice_seat1 0 = Some alice_seat1_lock
   ∧ seat_at alice_seat1 1 = Some (initial_seat 1))
  ∧ snd (serve undeclared (Lock 1 (Some "bob")) 2000 alice_seat1) = thrown
  ∧ code (snd (serve undeclared (Lock 0 (Some "bob")) 2000 alice_seat1))
    = 423
  ∧ snd (serve undeclared (Lock 0 (Some "bob")) 61001 alice_seat1) = thrown.
Proof.
  pose proof (lock_never_grants alice_seat1 1 (Some "bob") 2000
                alice_seat1_reachable) as (_ & _ & Hfree & _).
  pose proof (lock_never_grants alice_seat1 0 (Some "bob") 2000
                alice_seat1_reachable) as (_ & _ & _ & Hlive & _).
  pose proof (lock_never_grants alice_seat1 0 (Some "bob") 61001
                alice_seat1_reachable) as (_ & _ & Hstale & _).
  split; [split_and!; [apply alice_seat1_reachable|reflexivity..]|].
  split; [apply (Hfree (initial_seat 1) eq_refl); by left|].
  split.
  - apply (Hlive alice_seat1_lock eq_refl eq_refl).
    intros (t & Ht & Hlate). injection Ht as <-.
    unfold LOCK_EXPIRATION_TIME in Hlate. lia.
  - apply (Hstale alice_seat1_lock eq_refl). right. split; [reflexivity|].
    exists 1000. split; [reflexivity|]. unfold LOCK_EXPIRATION_TIME. lia.
Defined.

(** Witness of X11: alice locks seat 3 at time 1000 and bob asks for it at
    time 61001. *)
Lemma second_api_lock_witness :
  (truthy (Val (IStr "alice")) = true ∧ truthy (Val (IStr "bob")) = true
   ∧ find_seat 3 initial_state = Some (2%nat, initial_seat 2)
   ∧ status (initial_seat 2) = "available")
  ∧ ∃ s1 r1,
      serve undeclared (ApiLock 3 (Val (IStr "alice"))) 1000 initial_state
      = (s1, r1)
      ∧ code r1 = 200
      ∧ code (snd (serve undeclared (ApiLock 3 (Val (IStr "bob"))) 61001 s1))
        = 200
      ∧ ∃ y2, seats (fst (serve undeclared (ApiLock 3 (Val (IStr "bob")))
                            61001 s1)) !! 2%nat = Some y2
          ∧ status y2 = "locked" ∧ lockedBy y2 = Val (IStr "bob")
          ∧ lockedAt y2 = Val 61001.
Proof.
  split; [split_and!; reflexivity|].
  destruct (second_api_lock undeclared 3 (Val (IStr "alice"))
              (Val (IStr "bob")) 1000 61001 initial_state 2%nat
              (initial_seat 2) eq_refl eq_refl eq_refl eq_refl)
    as (s1 & r1 & y1 & H1 & Hc1 & _ & _ & _ & _ & _ & Hlate).
  destruct Hlate as (Hc2 & Hy2); [lia|].
  exists s1, r1. split; [exact H1|]. split; [exact Hc1|].
  split; [exact Hc2|exact Hy2].
Defined.

(** Witness of X12: seat 1 (index 0) once alice has booked it through
    [/confirm]. *)
Lemma replaced_seat_is_lost_to_api_witness :
  (reachable undeclared alice_booked
   ∧ seats alice_booked !! 0%nat = Some booked_obj
   ∧ seat_id booked_obj = None ∧ truthy (Val (IStr "alice")) = true)
  ∧ snd (serve undeclared (ApiLock 1 (Val (IStr "alice"))) 3000 alice_booked)
    = api_fail 404 "Seat not found"
  ∧ snd (serve undeclared (ApiConfirm 1 (Val (IStr "alice"))) 3000
           alice_booked)
    = api_fail 404 "Seat not found"
  ∧ snd (serve undeclared (ApiRelease 1 (Val (IStr "alice"))) 3000
           alice_booked)
    = api_fail 404 "Seat not found".
Proof.
  split; [split_and!; [apply alice_booked_reachable|done..]|].
  apply (replaced_seat_is_lost_to_api undeclared alice_booked 0%nat
           booked_obj (Val (IStr "alice")) 3000 alice_booked_reachable);
    reflexivity.
Defined.

(** Witness of X13: seat 3 at startup. *)
Lemma api_lock_then_release_witness :
  (reachable undeclared initial_state
   ∧ truthy (Val (IStr "alice")) = true
   ∧ find_seat 3 initial_state = Some (2%nat, initial_seat 2)
   ∧ status (initial_seat 2) = "available")
  ∧ ∃ s1 r1 r2,
      api_lock 3 (Val (IStr "alice")) 1000 initial_state = (s1, r1)
      ∧ api_release 3 (Val (IStr "alice")) s1 = (initial_state, r2)
      ∧ code r1 = 200 ∧ code r2 = 200
      ∧ returned_record r2 = Some (initial_seat 2).
Proof.
  split; [split_and!; [apply initial_reachable|done..]|].
  apply (api_lock_then_release undeclared 3 (Val (IStr "alice")) 1000
           initial_state 2%nat (initial_seat 2) initial_reachable);
    reflexivity.
Defined.

(** Witness of X14: seat 1 at startup. *)
Lemma api_lock_then_unlock_witness :
  (reachable undeclared initial_state
   ∧ truthy (Val (IStr "alice")) = true
   ∧ find_seat 1 initial_state = Some (0%nat, initial_seat 0)
   ∧ status (initial_seat 0) = "available")
  ∧ ∃ s1 r1 s2,
      api_lock 1 (Val (IStr "alice")) 1000 initial_state = (s1, r1)
      ∧ code r1 = 200
      ∧ unlock (Z.of_nat 0) s1
        = (s2, Response 200
                 (Message [Lit "Seat "; NumF (Z.of_nat 0);
                           Lit " lock cleared."]))
      ∧ seats s2 = <[0%nat := available_obj]> (seats initial_state)
      ∧ timers s2 = timers initial_state
      ∧ find_seat 1 s2 = None.
Proof.
  split; [split_and!; [apply initial_reachable|done..]|].
  apply (api_lock_then_unlock undeclared 1 (Val (IStr "alice")) 1000
           initial_state 0%nat (initial_seat 0) initial_reachable);
    reflexivity.
Defined.

(** * Properties of the card collection *)

Section Cards.

(** ** What a successful write looks like *)

Lemma includes_true l v :
  includes l v = true → ∃ s, v = Val (IStr s) ∧ s ∈ l.
Proof.
  destruct v as [| |[b|n|s]]; simpl; try done.
  intros H. apply bool_decide_eq_true in H. eauto.
Qed.

Lemma validateCard_valid sv vv :
  isValid (validateCard sv vv) = true →
  ∃ s v, sv = Val (IStr s) ∧ vv = Val (IStr v)
         ∧ s ∈ validSuits ∧ v ∈ validValues.
Proof.
  unfold validateCard.
  destruct (includes validSuits sv) eqn:Hs; simpl; [|done].
  destruct (includes validValues vv) eqn:Hv; simpl; [|done].
  intros _. apply includes_true in Hs as (s & -> & ?).
  apply includes_true in Hv as (v & -> & ?). eauto 10.
Qed.

Lemma card_post_success sv vv d :
  r_success (snd (card_post sv vv d)) = true →
  ∃ s v, sv = Val (IStr s) ∧ vv = Val (IStr v)
    ∧ s ∈ validSuits ∧ v ∈ validValues
    ∧ (∀ c, c ∈ cards d → ¬ (suit c = s ∧ value c = v))
    ∧ card_post sv vv d
      = (Deck (cards d ++ [Card (nextId d) s v]) (nextId d + 1),
         card_ok 201 "Card created successfully" (Card (nextId d) s v)).
Proof.
  unfold card_post.
  destruct (negb (truthy sv) || negb (truthy vv)); [done|].
  destruct (isValid (validateCard sv vv)) eqn:Hv; simpl; [|done].
  apply validateCard_valid in Hv as (s & v & -> & -> & ? & ?).
  destruct (list_find _ (cards d)) as [[i c]|] eqn:Hf; [done|].
  intros _. exists s, v. split_and!; [done..| |done].
  apply list_find_None in Hf. rewrite Forall_forall in Hf.
  intros c Hc [<- <-]. by apply (Hf c Hc).
Qed.

Lemma card_put_success cardId sv vv d :
  r_success (snd (card_put cardId sv vv d)) = true →
  ∃ id i x s v, cardId = Some id
    ∧ list_find (λ c, card_id c = id) (cards d) = Some (i, x)
    ∧ sv = Val (IStr s) ∧ vv = Val (IStr v)
    ∧ s ∈ validSuits ∧ v ∈ validValues
    ∧ (∀ c, c ∈ cards d → suit c = s → value c = v → card_id c = id)
    ∧ card_put cardId sv vv d
      = (Deck (<[i := Card id s v]> (cards d)) (nextId d),
         card_ok 200 "Card updated successfully" (Card id s v)).
Proof.
  unfold card_put. destruct cardId as [id|]; [|done].
  destruct (list_find _ (cards d)) as [[i x]|] eqn:Hi; [|done].
  destruct (negb (truthy sv) || negb (truthy vv)); [done|].
  destruct (isValid (validateCard sv vv)) eqn:Hv; simpl; [|done].
  apply validateCard_valid in Hv as (s & v & -> & -> & ? & ?).
  destruct (list_find (λ c, _ ∧ _ ∧ _) (cards d)) as [[j c]|] eqn:Hf;
    [done|].
  intros _. pose proof Hi as Hi'.
  apply list_find_Some in Hi' as (_ & Hid & _).
  exists id, i, x, s, v. split_and!; [done..| |by rewrite Hid].
  apply list_find_None in Hf. rewrite Forall_forall in Hf.
  intros c Hc <- <-. destruct (decide (card_id c = id)); [done|].
  by destruct (Hf c Hc).
Qed.

Lemma card_delete_success cardId d :
  r_success (snd (card_delete cardId d)) = true →
  ∃ id i x, cardId = Some id
    ∧ list_find (λ c, card_id c = id) (cards d) = Some (i, x)
    ∧ card_delete cardId d
      = (Deck (delete i (cards d)) (nextId d),
         card_ok 200 "Card deleted successfully" x).
Proof.
  unfold card_delete. destruct cardId as [id|]; [|done].
  destruct (list_find _ (cards d)) as [[i x]|] eqn:Hi; [|done].
  intros _. by exists id, i, x.
Qed.

(** A refused write leaves the deck alone. *)
Lemma card_serve_failure r d :
  r_success (snd (card_serve r d)) = false → fst (card_serve r d) = d.
Proof.
  destruct r as [|cardId|sv vv|cardId sv vv|cardId|s|v]; simpl.
  - done.
  - intros _. unfold card_get. destruct cardId; [|done].
    by destruct (list_find _ _) as [[??]|].
  - unfold card_post.
    destruct (negb (truthy sv) || negb (truthy vv)); [done|].
    destruct (negb (isValid _)); [done|].
    by destruct (list_find _ _) as [[??]|].
  - unfold card_put. destruct cardId; [|done].
    destruct (list_find _ _) as [[??]|]; [|done].
    destruct (negb (truthy sv) || negb (truthy vv)); [done|].
    destruct (negb (isValid _)); [done|].
    by destruct (list_find _ _) as [[??]|].
  - unfold card_delete. destruct cardId; [|done].
    by destruct (list_find _ _) as [[??]|].
  - intros _. unfold cards_by_suit. by destruct (negb _).
  - intros _. unfold cards_by_value. by destruct (negb _).
Qed.

(** ** The invariant of the deck *)

Lemma deck_ok_initial : deck_ok initial_deck.
Proof.
  split; simpl.
  - apply (bool_decide_unpack _). by vm_compute.
  - repeat constructor.
  - apply (bool_decide_unpack _). by vm_compute.
  - repeat constructor; apply (bool_decide_unpack _); by vm_compute.
Qed.

Lemma deck_ok_post d s v :
  deck_ok d → s ∈ validSuits → v ∈ validValues →
  (∀ c, c ∈ cards d → ¬ (suit c = s ∧ value c = v)) →
  deck_ok (Deck (cards d ++ [Card (nextId d) s v]) (nextId d + 1)).
Proof.
  intros [Hids Hlt Hfaces Hvalid] Hs Hv Hnew. split; simpl.
  - rewrite fmap_app. apply NoDup_app. split_and!; [done| |].
    + intros x Hx. apply list_elem_of_fmap in Hx as (c & -> & Hc).
      rewrite Forall_forall in Hlt. specialize (Hlt c Hc). simpl in Hlt.
      intros Hin. apply list_elem_of_singleton in Hin. simpl in Hin. lia.
    + apply NoDup_singleton.
  - apply Forall_app. split.
    + eapply Forall_impl; [exact Hlt|]. intros c Hc. simpl in *. lia.
    + apply Forall_singleton. simpl. lia.
  - rewrite fmap_app. apply NoDup_app. split_and!; [done| |].
    + intros p Hp. apply list_elem_of_fmap in Hp as (c & -> & Hc).
      intros Hin. apply list_elem_of_singleton in Hin. simpl in Hin.
      injection Hin as ? ?. by apply (Hnew c Hc).
    + apply NoDup_singleton.
  - apply Forall_app. split; [done|]. by apply Forall_singleton.
Qed.

Lemma deck_ok_put d id i x s v :
  deck_ok d → list_find (λ c, card_id c = id) (cards d) = Some (i, x) →
  s ∈ validSuits → v ∈ validValues →
  (∀ c, c ∈ cards d → suit c = s → value c = v → card_id c = id) →
  deck_ok (Deck (<[i := Card id s v]> (cards d)) (nextId d)).
Proof.
  intros [Hids Hlt Hfaces Hvalid] Hf Hs Hv Hother.
  apply list_find_Some in Hf as (Hx & Hid & _).
  assert (card_id <$> <[i := Card id s v]> (cards d) = card_id <$> cards d)
    as Hsame.
  { rewrite list_fmap_insert. apply list_insert_id.
    by rewrite list_lookup_fmap, Hx, <- Hid. }
  split; simpl.
  - by rewrite Hsame.
  - apply Forall_insert; [done|]. simpl.
    rewrite Forall_forall in Hlt. rewrite <- Hid. apply Hlt.
    by eapply list_elem_of_lookup_2.
  - rewrite list_fmap_insert. simpl. apply NoDup_alt.
    assert (∀ j, j ≠ i →
              ((λ c, (suit c, value c)) <$> cards d) !! j ≠ Some (s, v))
      as Hfresh.
    { intros j Hj Hp. rewrite list_lookup_fmap in Hp.
      destruct (cards d !! j) as [c|] eqn:Hc; [|done].
      injection Hp as Hcs Hcv.
      pose proof (Hother c (list_elem_of_lookup_2 _ _ _ Hc) Hcs Hcv) as Hcid.
      apply Hj. apply (NoDup_lookup _ j i id Hids).
      - by rewrite list_lookup_fmap, Hc, <- Hcid.
      - by rewrite list_lookup_fmap, Hx, <- Hid. }
    intros j k p Hj Hk.
    apply list_lookup_insert_Some in Hj as [(<- & <- & _)|(? & Hj)];
      apply list_lookup_insert_Some in Hk as [(<- & Hp & _)|(? & Hk)].
    + done.
    + by destruct (Hfresh k).
    + subst p. by destruct (Hfresh j).
    + by eapply (NoDup_lookup _ j k p Hfaces).
  - by apply Forall_insert.
Qed.

Lemma deck_ok_delete d i :
  deck_ok d → deck_ok (Deck (delete i (cards d)) (nextId d)).
Proof.
  intros [Hids Hlt Hfaces Hvalid]. split; simpl.
  - rewrite list_fmap_delete.
    eapply sublist_NoDup; [done|apply sublist_delete].
  - by apply Forall_delete.
  - rewrite list_fmap_delete.
    eapply sublist_NoDup; [done|apply sublist_delete].
  - by apply Forall_delete.
Qed.

Lemma deck_ok_serve r d : deck_ok d → deck_ok (fst (card_serve r d)).
Proof.
  intros Hok.
  destruct (r_success (snd (card_serve r d))) eqn:Hs;
    [|by rewrite card_serve_failure].
  destruct r as [|cardId|sv vv|cardId sv vv|cardId|s|v]; simpl in *.
  - done.
  - unfold card_get. destruct cardId; [|done].
    by destruct (list_find _ _) as [[??]|].
  - apply card_post_success in Hs
      as (s & v & -> & -> & ? & ? & ? & ->).
    by apply deck_ok_post.
  - apply card_put_success in Hs
      as (id & i & x & s & v & -> & ? & -> & -> & ? & ? & ? & ->).
    by eapply deck_ok_put.
  - apply card_delete_success in Hs as (id & i & x & -> & ? & ->).
    by apply deck_ok_delete.
  - unfold cards_by_suit. by destruct (negb _).
  - unfold cards_by_value. by destruct (negb _).
Qed.

Lemma deck_ok_run trace d : deck_ok d → deck_ok (card_run trace d).
Proof.
  revert d. induction trace as [|r rest IH]; intros d Hok; simpl; [done|].
  apply IH. by apply deck_ok_serve.
Qed.

Lemma deck_reachable_ok d : deck_reachable d → deck_ok d.
Proof. intros [trace ->]. apply deck_ok_run, deck_ok_initial. Qed.



(** ** Reading back what was written *)






(** ** Answers *)

(** X19. Every answer of a card route is a success with code 200 or 201,
    or a failure with code 400, 404 or 409; a failure leaves the list and
    [nextId] as they were, and so does every [GET]. *)
Theorem card_answers (r : card_request) (d : deck) :
  ((r_success (snd (card_serve r d)) = true
    ∧ (r_code (snd (card_serve r d)) = 200
       ∨ r_code (snd (card_serve r d)) = 201))
   ∨ (r_success (snd (card_serve r d)) = false
      ∧ (r_code (snd (card_serve r d)) = 400
         ∨ r_code (snd (card_serve r d)) = 404
         ∨ r_code (snd (card_serve r d)) = 409)
      ∧ fst (card_serve r d) = d))
  ∧ match r with
    | CardsAll | CardGet _ | CardsBySuit _ | CardsByValue _ =>
        fst (card_serve r d) = d
    | _ => True
    end.
Proof.
  destruct r as [|cardId|sv vv|cardId sv vv|cardId|s|v]; simpl.
  - split; [left|]; auto.
  - unfold card_get. destruct cardId; [|split; [right|]; auto].
    destruct (list_find _ _) as [[??]|]; simpl;
      (split; [|done]); [left|right]; auto.
  - split; [|done]. unfold card_post.
    destruct (negb (truthy sv) || negb (truthy vv)); [right; auto|].
    destruct (negb (isValid _)); [right; auto|].
    destruct (list_find _ _) as [[??]|]; simpl; [right|left]; auto.
  - split; [|done]. unfold card_put.
    destruct cardId; [|right; auto].
    destruct (list_find _ _) as [[??]|]; [|right; auto].
    destruct (negb (truthy sv) || negb (truthy vv)); [right; auto|].
    destruct (negb (isValid _)); [right; auto|].
    destruct (list_find _ _) as [[??]|]; simpl; [right|left]; auto.
  - split; [|done]. unfold card_delete.
    destruct cardId; [|right; auto].
    destruct (list_find _ _) as [[??]|]; simpl; [left|right]; auto.
  - unfold cards_by_suit.
    destruct (negb _); simpl; (split; [|done]); [right|left]; auto.
  - unfold cards_by_value.
    destruct (negb _); simpl; (split; [|done]); [right|left]; auto.
Qed.

(** ** Updates *)

Lemma find_after_update (l : list card) id i x s v :
  list_find (λ c, card_id c = id) l = Some (i, x) →
  list_find (λ c, card_id c = id) (<[i := Card id s v]> l)
  = Some (i, Card id s v).
Proof.
  intros Hf. apply list_find_Some in Hf as (Hx & _ & Hfirst).
  apply list_find_Some. split_and!; [|done|].
  - apply list_lookup_insert_eq. by eapply lookup_lt_Some.
  - intros j y Hy Hlt. rewrite list_lookup_insert_ne in Hy by lia.
    by eapply Hfirst.
Qed.

(** X20. When [PUT /api/cards/:id] answers 200, exactly the card with
    that id has changed: it keeps its id and its place in the list and
    has the suit and value of the request; all other cards, the length of
    the list and [nextId] are as before, and [GET /api/cards/:id] returns
    the updated card. *)
Theorem put_changes_one_card (cardId : option Z) (sv vv : field ident)
    (d d' : deck) (a : card_reply) :
  card_put cardId sv vv d = (d', a) → r_code a = 200 →
  ∃ id i old c, cardId = Some id
    ∧ cards d !! i = Some old ∧ card_id old = id
    ∧ card_id c = id ∧ Val (IStr (suit c)) = sv
    ∧ Val (IStr (value c)) = vv
    ∧ r_data a = OneCard c
    ∧ cards d' = <[i := c]> (cards d)
    ∧ (∀ j, j ≠ i → cards d' !! j = cards d !! j)
    ∧ length (cards d') = length (cards d) ∧ nextId d' = nextId d
    ∧ card_get (Some id) d'
      = (d', CardReply 200 true None None None None (OneCard c)).
Proof.
  intros Hput Hcode.
  assert (r_success (snd (card_put cardId sv vv d)) = true) as Hs.
  { rewrite Hput. simpl. revert Hput Hcode. unfold card_put.
    destruct cardId; [|by intros [= <- <-]].
    destruct (list_find _ _) as [[??]|]; [|by intros [= <- <-]].
    destruct (negb (truthy sv) || negb (truthy vv));
      [by intros [= <- <-]|].
    destruct (negb (isValid _)); [by intros [= <- <-]|].
    destruct (list_find _ _) as [[??]|]; by intros [= <- <-]. }
  apply card_put_success in Hs
    as (id & i & x & s & v & -> & Hf & -> & -> & _ & _ & _ & Heq).
  rewrite Heq in Hput. injection Hput as <- <-.
  pose proof Hf as Hf'. apply list_find_Some in Hf' as (Hx & Hid & _).
  exists id, i, x, (Card id s v). simpl. split_and!; try done.
  - intros j Hj. by apply list_lookup_insert_ne.
  - apply length_insert.
  - unfold card_get. simpl. by rewrite (find_after_update _ id i x s v Hf).
Qed.

(** ** Ids *)




(** ** Queries by suit *)

Lemma suits_partition (l : list card) :
  Forall (λ c, suit c ∈ validSuits) l →
  (length (filter (λ c, suit c = "Hearts") l)
   + length (filter (λ c, suit c = "Diamonds") l)
   + length (filter (λ c, suit c = "Clubs") l)
   + length (filter (λ c, suit c = "Spades") l))%nat
  = length l.
Proof.
  induction 1 as [|c l Hc _ IH]; [done|].
  rewrite !filter_cons. unfold validSuits in Hc.
  repeat (apply elem_of_cons in Hc as [Hc|Hc]);
    [..|by apply elem_of_nil in Hc];
    rewrite Hc;
    repeat (rewrite decide_True by done
            || rewrite decide_False by discriminate);
    simpl; lia.
Qed.

(** X22. The four suits partition the collection: the counts that
    [GET /api/cards/suit/:suit] answers for Hearts, Diamonds, Clubs and
    Spades add up to the count of [GET /api/cards]. *)
Theorem suit_counts_add_up (d : deck) :
  deck_reachable d →
  ∃ h di c s,
    r_count (snd (cards_by_suit "Hearts" d)) = Some h
    ∧ r_count (snd (cards_by_suit "Diamonds" d)) = Some di
    ∧ r_count (snd (cards_by_suit "Clubs" d)) = Some c
    ∧ r_count (snd (cards_by_suit "Spades" d)) = Some s
    ∧ r_count (snd (cards_all d)) = Some (h + di + c + s)%nat.
Proof.
  intros Hr. apply deck_reachable_ok in Hr as [_ _ _ Hvalid].
  eexists _, _, _, _. split_and!; [reflexivity..|].
  simpl. f_equal. symmetry. apply suits_partition.
  eapply Forall_impl; [exact Hvalid|]. by intros c [? _].
Qed.

End Cards.

(** ** Concrete decks *)


Lemma deck_after_post_delete_reachable :
  deck_reachable deck_after_post_delete.
Proof. by eexists. Qed.





(** Witness of X20: card 2 of the initial deck becomes the two of clubs. *)
Lemma put_changes_one_card_witness :
  r_code (snd (card_put (Some 2) (Val (IStr "Clubs")) (Val (IStr "2"))
                 initial_deck)) = 200
  ∧ ∃ id i old c, Some 2 = Some id
      ∧ cards initial_deck !! i = Some old ∧ card_id old = id
      ∧ card_id c = id ∧ Val (IStr (suit c)) = Val (IStr "Clubs")
      ∧ Val (IStr (value c)) = Val (IStr "2")
      ∧ r_data (snd (card_put (Some 2) (Val (IStr "Clubs"))
                       (Val (IStr "2")) initial_deck)) = OneCard c
      ∧ cards (fst (card_put (Some 2) (Val (IStr "Clubs"))
                      (Val (IStr "2")) initial_deck))
        = <[i := c]> (cards initial_deck)
      ∧ (∀ j, j ≠ i →
           cards (fst (card_put (Some 2) (Val (IStr "Clubs"))
                         (Val (IStr "2")) initial_deck)) !! j
           = cards initial_deck !! j)
      ∧ length (cards (fst (card_put (Some 2) (Val (IStr "Clubs"))
                              (Val (IStr "2")) initial_deck)))
        = length (cards initial_deck)
      ∧ nextId (fst (card_put (Some 2) (Val (IStr "Clubs"))
                       (Val (IStr "2")) initial_deck))
        = nextId initial_deck
      ∧ card_get (Some id)
          (fst (card_put (Some 2) (Val (IStr "Clubs")) (Val (IStr "2"))
                  initial_deck))
        = (fst (card_put (Some 2) (Val (IStr "Clubs")) (Val (IStr "2"))
                  initial_deck),
           CardReply 200 true None None None None (OneCard c)).
Proof.
  split; [reflexivity|].
  apply (put_changes_one_card (Some 2) (Val (IStr "Clubs"))
           (Val (IStr "2")) initial_deck _ _ eq_refl eq_refl).
Defined.


(** Witness of X22: the deck after one card was added and one deleted. *)
Lemma suit_counts_add_up_witness :
  deck_reachable deck_after_post_delete
  ∧ ∃ h di c s,
      r_count (snd (cards_by_suit "Hearts" deck_after_post_delete)) = Some h
      ∧ r_count (snd (cards_by_suit "Diamonds" deck_after_post_delete))
        = Some di
      ∧ r_count (snd (cards_by_suit "Clubs" deck_after_post_delete)) = Some c
      ∧ r_count (snd (cards_by_suit "Spades" deck_after_post_delete))
        = Some s
      ∧ r_count (snd (cards_all deck_after_post_delete))
        = Some (h + di + c + s)%nat.
Proof.
  split; [apply deck_after_post_delete_reachable|].
  apply (suit_counts_add_up deck_after_post_delete
           deck_after_post_delete_reachable).
Defined.

(** * Properties of the employee roster *)

Section RosterProperties.

Variable trim : string → string.

Lemma find_employee_None id emps :
  find_employee id emps = None ↔ ∀ emp, emp ∈ emps → emp_id emp ≠ id.
Proof.
  unfold find_employee. rewrite fmap_None, list_find_None, Forall_forall.
  done.
Qed.

Lemma find_employee_Some id emps emp :
  find_employee id emps = Some emp → emp ∈ emps ∧ emp_id emp = id.
Proof.
  unfold find_employee. intros H. apply fmap_Some in H as ([i e] & Hf & ->).
  apply list_find_Some in Hf as (Hi & ? & _). simpl. split; [|done].
  by eapply list_elem_of_lookup_2.
Qed.

Lemma ids_of_filter (P : employee → Prop) `{!∀ e, Decision (P e)}
    (emps : list employee) :
  NoDup (emp_id <$> emps) → NoDup (emp_id <$> filter P emps).
Proof.
  induction emps as [|a l IH]; [done|]. simpl.
  rewrite NoDup_cons. intros [Ha Hl]. rewrite filter_cons.
  destruct (decide (P a)); [|by apply IH]. simpl. apply NoDup_cons.
  split; [|by apply IH]. intros Hin. apply Ha.
  apply list_elem_of_fmap in Hin as (e & -> & He).
  apply list_elem_of_filter in He as [_ He].
  by apply list_elem_of_fmap_2.
Qed.

Lemma filter_keeps_all (P : employee → Prop) `{!∀ e, Decision (P e)}
    (emps : list employee) :
  (∀ e, e ∈ emps → P e) → filter P emps = emps.
Proof.
  induction emps as [|a l IH]; [done|]. intros Hall.
  rewrite filter_cons_True by (apply Hall; left).
  f_equal. apply IH. intros e He. apply Hall. by right.
Qed.

(** ** Changes of the roster *)

Lemma feed_employees line st :
  employees (feed trim line st)
  = match waiting st with
    | AddId nm =>
        if bool_decide (trim line = "") then employees st
        else match find_employee line (employees st) with
             | Some _ => employees st
             | None => (employees st ++ [Employee (trim nm) (trim line)])%list
             end
    | RemoveId =>
        if bool_decide (trim line = "") then employees st
        else filter (λ emp, emp_id emp ≠ trim line) (employees st)
    | _ => employees st
    end.
Proof.
  unfold feed. destruct (waiting st) as [| |nm| | |].
  - unfold on_choice. repeat case_bool_decide; done.
  - unfold on_name. by case_bool_decide.
  - unfold on_id. case_bool_decide; [done|].
    by destruct (find_employee line (employees st)).
  - unfold on_remove. by case_bool_decide.
  - unfold on_search. by case_bool_decide.
  - done.
Qed.

(** X23. The roster changes in two places only: an id typed at the add
    prompt that is not blank and equals no stored id appends one employee
    (name and id trimmed), and an id typed at the remove prompt that is
    not blank removes every employee whose id is the trimmed input. Menu
    choices (valid or not), listing, searching, a name, a blank line and
    any line after exit leave the roster as it is. *)
Theorem roster_changes (line : string) (st : cli) :
  (∀ nm, waiting st = AddId nm → trim line ≠ "" →
     (∀ emp, emp ∈ employees st → emp_id emp ≠ line) →
     employees (feed trim line st)
     = (employees st ++ [Employee (trim nm) (trim line)])%list)
  ∧ (waiting st = RemoveId → trim line ≠ "" →
     employees (feed trim line st)
     = filter (λ emp, emp_id emp ≠ trim line) (employees st))
  ∧ ((∀ nm, waiting st ≠ AddId nm) → waiting st ≠ RemoveId →
     employees (feed trim line st) = employees st)
  ∧ (trim line = "" → employees (feed trim line st) = employees st)
  ∧ (∀ nm emp, waiting st = AddId nm → emp ∈ employees st →
     emp_id emp = line → employees (feed trim line st) = employees st).
Proof.
  rewrite feed_employees. split_and!.
  - intros nm -> Hne Hfree. rewrite bool_decide_eq_false_2 by done.
    by rewrite (proj2 (find_employee_None line (employees st)) Hfree).
  - intros -> Hne. by rewrite bool_decide_eq_false_2 by done.
  - intros Hadd Hrem. destruct (waiting st) as [| |nm| | |]; try done.
    by destruct (Hadd nm).
  - intros Hblank. rewrite (bool_decide_eq_true_2 _ Hblank).
    by destruct (waiting st).
  - intros nm emp -> Hin Hid. case_bool_decide; [done|].
    destruct (find_employee line (employees st)) eqn:Hf; [done|].
    by destruct (proj1 (find_employee_None _ _) Hf emp Hin).
Qed.

(** ** Ids *)

Lemma feed_keeps_unique line st :
  trim line = line → NoDup (emp_id <$> employees st) →
  NoDup (emp_id <$> employees (feed trim line st)).
Proof.
  intros Ht Hnd. rewrite feed_employees.
  destruct (waiting st) as [| |nm| | |]; try done.
  - case_bool_decide; [done|].
    destruct (find_employee line (employees st)) eqn:Hf; [done|].
    rewrite fmap_app. apply NoDup_app. split_and!; [done| |].
    + intros id Hin Hnew. apply list_elem_of_singleton in Hnew.
      simpl in Hnew. rewrite Ht in Hnew. subst id.
      apply list_elem_of_fmap in Hin as (e & He & Hin).
      by destruct (proj1 (find_employee_None _ _) Hf e Hin).
    + apply NoDup_singleton.
  - case_bool_decide; [done|]. by apply ids_of_filter.
Qed.

Lemma feed_all_keeps_unique lines st :
  (∀ l, l ∈ lines → trim l = l) → NoDup (emp_id <$> employees st) →
  NoDup (emp_id <$> employees (feed_all trim lines st)).
Proof.
  revert st. induction lines as [|l lines IH]; intros st Hall Hnd; [done|].
  unfold feed_all. simpl. apply IH.
  - intros l' Hl'. apply Hall. by right.
  - apply feed_keeps_unique; [|done]. apply Hall. by left.
Qed.

(** X24. As long as no input line has white space at its ends (trimming
    changes none of them), the ids of the roster stay pairwise distinct,
    whatever is typed. *)
Theorem ids_unique_for_trimmed_input (lines : list string) :
  (∀ l, l ∈ lines → trim l = l) →
  NoDup (emp_id <$> employees (feed_all trim lines cli_start)).
Proof.
  intros Hall. apply feed_all_keeps_unique; [done|]. apply NoDup_nil_2.
Qed.

(** X25. The duplicate check of [addEmployee] compares the id as typed,
    and the id that is stored is trimmed: when the typed id is not blank
    and equals no stored id while its trimmed form is the id of an
    employee, the add goes through, reports success, and the roster then
    holds two employees with the same id. *)
Theorem padded_id_duplicates (nm id : string) (st : cli) (emp : employee) :
  waiting st = AddId nm → trim id ≠ "" →
  (∀ e, e ∈ employees st → emp_id e ≠ id) →
  emp ∈ employees st → emp_id emp = trim id →
  feed trim id st
  = showMenuAndGetChoice
      (employees st ++ [Employee (trim nm) (trim id)])%list (printed st)
      [Log ["✓ Employee "; nm; " (ID: "; id; ") added successfully!"]]
  ∧ ¬ NoDup (emp_id <$> employees (feed trim id st)).
Proof.
  intros Hw Hne Hfree Hin Hid.
  assert (feed trim id st
          = showMenuAndGetChoice
              (employees st ++ [Employee (trim nm) (trim id)])%list
              (printed st)
              [Log ["✓ Employee "; nm; " (ID: "; id;
                    ") added successfully!"]]) as ->.
  { unfold feed. rewrite Hw. unfold on_id.
    rewrite bool_decide_eq_false_2 by done.
    by rewrite (proj2 (find_employee_None id (employees st)) Hfree). }
  split; [done|]. simpl. rewrite fmap_app. intros Hnd.
  apply NoDup_app in Hnd as (_ & Hdisj & _).
  apply (Hdisj (trim id)).
  - rewrite <- Hid. by apply list_elem_of_fmap_2.
  - simpl. apply list_elem_of_singleton. done.
Qed.

(** ** Removing and searching *)

(** X26. An id typed at the remove prompt that is not blank removes every
    employee with the trimmed id and keeps the others in their order; a
    search for that id then finds nothing. The program reports success
    exactly when somebody had that id; otherwise it reports that nobody
    was found and the roster is unchanged. Either way the menu is next. *)
Theorem remove_by_id (id : string) (st : cli) :
  waiting st = RemoveId → trim id ≠ "" →
  waiting (feed trim id st) = Choice
  ∧ employees (feed trim id st)
    = filter (λ emp, emp_id emp ≠ trim id) (employees st)
  ∧ find_employee (trim id) (employees (feed trim id st)) = None
  ∧ ((∃ emp, emp ∈ employees st ∧ emp_id emp = trim id) →
     printed (feed trim id st)
     = (printed st
        ++ [Log ["✓ Employee with ID "; id; " removed successfully!"]]
        ++ showMenu ++ [Ask "Enter your choice (1-5): "])%list)
  ∧ ((∀ emp, emp ∈ employees st → emp_id emp ≠ trim id) →
     employees (feed trim id st) = employees st
     ∧ printed (feed trim id st)
       = (printed st
          ++ [Log ["Error: No employee found with ID "; id]]
          ++ showMenu ++ [Ask "Enter your choice (1-5): "])%list).
Proof.
  intros Hw Hne. unfold feed. rewrite Hw. unfold on_remove.
  rewrite bool_decide_eq_false_2 by done. simpl. split_and!; [done|done| | |].
  - apply find_employee_None. intros emp Hin.
    by apply list_elem_of_filter in Hin as [? _].
  - intros (emp & Hin & Hid). rewrite bool_decide_eq_true_2; [done|].
    apply (length_filter_lt _ _ emp Hin). intros Hx. by apply Hx.
  - intros Hnone. rewrite filter_keeps_all by done. split; [done|].
    rewrite bool_decide_eq_false_2 by lia. done.
Qed.

(** X27. An employee that was just added is found: after an id that is
    not blank, equals no stored id and whose trimmed form is no stored id
    either was typed at the add prompt, menu choice 4 asks for an id, and
    any input with the same trimmed form prints the trimmed name and id of
    the new employee. *)
Theorem add_then_search (nm id id' : string) (st : cli) :
  waiting st = AddId nm → trim id ≠ "" →
  (∀ e, e ∈ employees st → emp_id e ≠ id) →
  (∀ e, e ∈ employees st → emp_id e ≠ trim id) →
  trim id' = trim id →
  waiting (feed_all trim [id; "4"] st) = SearchId
  ∧ employees (feed_all trim [id; "4"] st)
    = (employees st ++ [Employee (trim nm) (trim id)])%list
  ∧ feed_all trim [id; "4"; id'] st
    = showMenuAndGetChoice
        (employees st ++ [Employee (trim nm) (trim id)])%list
        (printed (feed_all trim [id; "4"] st))
        [Log [LF; "=== Employee Found ==="];
         Log ["Name: "; trim nm]; Log ["ID: "; trim id]].
Proof.
  intros Hw Hne Hraw Htrimmed Hsame.
  assert (feed trim id st
          = showMenuAndGetChoice
              (employees st ++ [Employee (trim nm) (trim id)])%list
              (printed st)
              [Log ["✓ Employee "; nm; " (ID: "; id;
                    ") added successfully!"]]) as H1.
  { unfold feed. rewrite Hw. unfold on_id.
    rewrite bool_decide_eq_false_2 by done.
    by rewrite (proj2 (find_employee_None id (employees st)) Hraw). }
  set (emps := (employees st ++ [Employee (trim nm) (trim id)])%list) in *.
  assert (length emps ≠ 0%nat) as Hlen.
  { subst emps. rewrite length_app. simpl. lia. }
  assert (∀ s1, employees s1 = emps → waiting s1 = Choice →
            feed trim "4" s1
            = Cli emps SearchId
                (printed s1 ++ [Ask "Enter employee ID to search: "]))
    as H2.
  { intros s1 He Hc. unfold feed. rewrite Hc. unfold on_choice.
    rewrite He. simpl. by rewrite bool_decide_eq_false_2 by done. }
  assert (find_employee (trim id) emps
          = Some (Employee (trim nm) (trim id))) as Hfound.
  { unfold find_employee, emps. rewrite list_find_app_r.
    - simpl. by rewrite decide_True by done.
    - apply list_find_None, Forall_forall. exact Htrimmed. }
  unfold feed_all. simpl. rewrite H1.
  rewrite H2 by done. split_and!; [done|done|].
  unfold feed. simpl. unfold on_search. simpl.
  rewrite Hsame. rewrite bool_decide_eq_false_2 by done.
  by rewrite Hfound.
Qed.

End RosterProperties.

(** ** Concrete rosters *)

Lemma roster_ann_only (e : employee) :
  e ∈ employees roster_adding_bob → e = Employee "Ann" "7".
Proof. intros He. by apply list_elem_of_singleton in He. Qed.

(** Witness of X23: Bob is added with id 8, typed with spaces around. *)
Lemma roster_changes_witness :
  (waiting roster_adding_bob = AddId "Bob" ∧ trim_spaces " 8 " ≠ "")
  ∧ employees (feed trim_spaces " 8 " roster_adding_bob)
    = [Employee "Ann" "7"; Employee "Bob" "8"]
  ∧ employees (feed trim_spaces "7" roster_removing) = []
  ∧ employees (feed trim_spaces "2" roster_ann) = employees roster_ann
  ∧ employees (feed trim_spaces "7" roster_adding_bob)
    = employees roster_adding_bob.
Proof.
  pose proof (roster_changes trim_spaces " 8 " roster_adding_bob)
    as (Hadd & _).
  pose proof (roster_changes trim_spaces "7" roster_removing)
    as (_ & Hremove & _).
  pose proof (roster_changes trim_spaces "2" roster_ann)
    as (_ & _ & Hother & _).
  pose proof (roster_changes trim_spaces "7" roster_adding_bob)
    as (_ & _ & _ & _ & Hdup).
  split; [split; [reflexivity|discriminate]|].
  split.
  { apply (Hadd "Bob" eq_refl); [discriminate|].
    intros e He. apply roster_ann_only in He as ->. discriminate. }
  split; [apply Hremove; [reflexivity|discriminate]|].
  split; [apply Hother; [intros nm|]; discriminate|].
  apply (Hdup "Bob" (Employee "Ann" "7")); [reflexivity| |reflexivity].
  by apply list_elem_of_singleton.
Defined.

(** Witness of X24: two employees are added, then listed. *)
Lemma ids_unique_for_trimmed_input_witness :
  (∀ l, l ∈ ["1"; "Ann"; "7"; "1"; "Bob"; "8"; "2"] → trim_spaces l = l)
  ∧ NoDup (emp_id <$>
           employees (feed_all trim_spaces
                        ["1"; "Ann"; "7"; "1"; "Bob"; "8"; "2"] cli_start)).
Proof.
  assert (∀ l, l ∈ ["1"; "Ann"; "7"; "1"; "Bob"; "8"; "2"] →
               trim_spaces l = l) as Hall.
  { intros l Hl.
    repeat (apply elem_of_cons in Hl as [->|Hl]; [reflexivity|]).
    by apply elem_of_nil in Hl. }
  split; [exact Hall|].
  apply (ids_unique_for_trimmed_input trim_spaces _ Hall).
Defined.

(** Witness of X25: Bob gets Ann's id 7, typed with a space in front. *)
Lemma padded_id_duplicates_witness :
  (waiting roster_adding_bob = AddId "Bob" ∧ trim_spaces " 7" ≠ ""
   ∧ Employee "Ann" "7" ∈ employees roster_adding_bob
   ∧ emp_id (Employee "Ann" "7") = trim_spaces " 7")
  ∧ feed trim_spaces " 7" roster_adding_bob
    = showMenuAndGetChoice
        (employees roster_adding_bob
         ++ [Employee (trim_spaces "Bob") (trim_spaces " 7")])%list
        (printed roster_adding_bob)
        [Log ["✓ Employee "; "Bob"; " (ID: "; " 7";
              ") added successfully!"]]
  ∧ ¬ NoDup (emp_id <$>
             employees (feed trim_spaces " 7" roster_adding_bob)).
Proof.
  assert (Employee "Ann" "7" ∈ employees roster_adding_bob) as Hin.
  { by apply list_elem_of_singleton. }
  split; [split_and!; [reflexivity|discriminate|exact Hin|reflexivity]|].
  apply (padded_id_duplicates trim_spaces "Bob" " 7" roster_adding_bob
           (Employee "Ann" "7"));
    [reflexivity|discriminate| |exact Hin|reflexivity].
  intros e He. apply roster_ann_only in He as ->. discriminate.
Defined.

(** Witness of X26: Ann is removed by her id. *)
Lemma remove_by_id_witness :
  (waiting roster_removing = RemoveId ∧ trim_spaces "7" ≠ "")
  ∧ waiting (feed trim_spaces "7" roster_removing) = Choice
  ∧ employees (feed trim_spaces "7" roster_removing) = []
  ∧ find_employee (trim_spaces "7")
      (employees (feed trim_spaces "7" roster_removing)) = None
  ∧ printed (feed trim_spaces "7" roster_removing)
    = (printed roster_removing
       ++ [Log ["✓ Employee with ID "; "7"; " removed successfully!"]]
       ++ showMenu ++ [Ask "Enter your choice (1-5): "])%list.
Proof.
  pose proof (remove_by_id trim_spaces "7" roster_removing eq_refl)
    as Hrem.
  destruct Hrem as (Hw & He & Hf & Hok & _); [discriminate|].
  split; [split; [reflexivity|discriminate]|].
  split; [exact Hw|]. split; [exact He|]. split; [exact Hf|].
  apply Hok. exists (Employee "Ann" "7"). split; [|reflexivity].
  by apply list_elem_of_singleton.
Defined.

(** Witness of X27: Bob is added with id 8 and searched as ' 8 '. *)
Lemma add_then_search_witness :
  (waiting roster_adding_bob = AddId "Bob" ∧ trim_spaces "8" ≠ ""
   ∧ trim_spaces " 8 " = trim_spaces "8")
  ∧ waiting (feed_all trim_spaces ["8"; "4"] roster_adding_bob) = SearchId
  ∧ employees (feed_all trim_spaces ["8"; "4"] roster_adding_bob)
    = (employees roster_adding_bob
       ++ [Employee (trim_spaces "Bob") (trim_spaces "8")])%list
  ∧ feed_all trim_spaces ["8"; "4"; " 8 "] roster_adding_bob
    = showMenuAndGetChoice
        (employees roster_adding_bob
         ++ [Employee (trim_spaces "Bob") (trim_spaces "8")])%list
        (printed (feed_all trim_spaces ["8"; "4"] roster_adding_bob))
        [Log [LF; "=== Employee Found ==="];
         Log ["Name: "; trim_spaces "Bob"]; Log ["ID: "; trim_spaces "8"]].
Proof.
  split; [split_and!; [reflexivity|discriminate|reflexivity]|].
  apply (add_then_search trim_spaces "Bob" "8" " 8 " roster_adding_bob);
    [reflexivity|discriminate| | |reflexivity];
    intros e He; apply roster_ann_only in He as ->; discriminate.
Defined.
